(** * gulpfile.js of tsutil: a shallow embedding and its properties

    The build script declares a table of named tasks with prerequisites,
    a memoising accessor [val], two objects of memoised settings ([env]
    and [globs]) and the bodies of the tasks.  JavaScript values are a
    small inductive type, the closures' private variables live in a
    store, and every accessor is a computation over that store.  The task
    runner, the file-deletion utility and [gulp.dest] are not part of the
    file; they are modelled where a property needs them and marked so.
    The definitions come first, the properties after them. *)

From Stdlib Require Import Floats.PrimFloat Strings.Ascii.
From stdpp Require Import gmap strings list relations.

Set Default Proof Using "Type".
Set Warnings "-register-all".

(** ** JavaScript values *)

Inductive JsVal : Type :=
| JUndefined
| JNull
| JBool (b : bool)
| JNum (x : float)
| JStr (s : string)
| JArr (xs : list JsVal)
| JObj (fields : list (string * JsVal)).

(** [v === undefined] *)
Definition is_undefined (v : JsVal) : bool :=
  match v with JUndefined => true | _ => false end.

(** [v === 'lit'] for a string literal *)
Definition strict_eq_str (v : JsVal) (lit : string) : bool :=
  match v with JStr s => bool_decide (s = lit) | _ => false end.

(** JavaScript's ToBoolean: the falsy values are [undefined], [null],
    [false], [0], [NaN] and the empty string. *)
Definition truthy (v : JsVal) : bool :=
  match v with
  | JUndefined | JNull => false
  | JBool b => b
  | JNum x => negb (PrimFloat.eqb x 0%float) && negb (PrimFloat.is_nan x)
  | JStr s => negb (bool_decide (s = ""))
  | JArr _ | JObj _ => true
  end.

(** ** Computations over a store *)

Module Js.
Definition t (S A : Type) : Type := S → A * S.

Definition ret {S A} (a : A) : t S A := λ s, (a, s).

Definition bind {S A B} (m : t S A) (k : A → t S B) : t S B :=
  λ s, let '(a, s') := m s in k a s'.

Definition gets {S A} (f : S → A) : t S A := λ s, (f s, s).

(** Run [m] [n] times in a row, collecting the results. *)
Fixpoint repeat {S A} (n : nat) (m : t S A) : t S (list A) :=
  match n with
  | 0 => ret []
  | S n' => bind m (λ a, bind (repeat n' m) (λ r, ret (a :: r)))
  end.
End Js.

#[export] Instance js_ret {S} : MRet (Js.t S) := λ A, Js.ret.
#[export] Instance js_bind {S} : MBind (Js.t S) := λ A B k m, Js.bind m k.

(** ** [val]: runs a function once and caches the value

    [val(fn)] allocates the variable [value] and returns a closure over
    it.  The variable is given by a pair of a reader and a writer on the
    store the closure runs in. *)

Record Slot (S : Type) : Type := MkSlot {
  slot_get : S → JsVal;
  slot_set : JsVal → S → S
}.
Arguments MkSlot {S}.
Arguments slot_get {S}.
Arguments slot_set {S}.

Definition val {S} (value : Slot S) (fn : Js.t S JsVal) : Js.t S JsVal :=
  λ s,
    let s1 :=
      if is_undefined (slot_get value s)
      then let '(v, s') := fn s in slot_set value v s'
      else s in
    (slot_get value s1, s1).

(** *** One closure on its own

    The store of a single accessor: its variable [value], the state of the
    world the constructor acts on, and a count of the constructor's
    invocations (the count is there to observe them). *)

Record Cell (W : Type) : Type := MkCell {
  value : JsVal;
  world : W;
  invoked : nat
}.
Arguments MkCell {W}.
Arguments value {W}.
Arguments world {W}.
Arguments invoked {W}.

Definition cell_value {W} : Slot (Cell W) :=
  MkSlot value (λ v c, MkCell v (world c) (invoked c)).

(** The constructor [f] as run inside the accessor: it sees and changes
    the world only; each run is counted. *)
Definition constructor {W} (f : W → JsVal * W) : Js.t (Cell W) JsVal :=
  λ c, let '(v, w') := f (world c) in (v, MkCell (value c) w' (S (invoked c))).

(** [val(f)] right after its creation: [value] is undefined. *)
Definition fresh {W} (w : W) : Cell W := MkCell JUndefined w 0.

Definition accessor {W} (f : W → JsVal * W) : Js.t (Cell W) JsVal :=
  val cell_value (constructor f).

(** The property of the accessor as the documentation of [val] has it:
    two calls give one value and the constructor has run once. *)
Definition runs_once {W} (f : W → JsVal * W) (w : W) : Prop :=
  let '(v1, c1) := accessor f (fresh w) in
  let '(v2, c2) := accessor f c1 in
  v1 = v2 ∧ invoked c2 = 1.

(** A constructor with a side effect that yields [undefined] first. *)
Definition late_constructor (n : nat) : JsVal * nat :=
  (match n with 0 => JUndefined | _ => JStr "ready" end, S n).

(** ** Strings, arrays and Node's [path] module

    [split_on], [join] and [path_join] follow [String.prototype.split],
    [Array.prototype.join] and the POSIX [path.join] of Node. *)

Fixpoint split_on (sep : ascii) (s : string) : list string :=
  match s with
  | EmptyString => [""]
  | String c s' =>
      if Ascii.eqb c sep then "" :: split_on sep s'
      else match split_on sep s' with
           | [] => [String c ""]
           | w :: ws => String c w :: ws
           end
  end.

Fixpoint join (sep : string) (xs : list string) : string :=
  match xs with
  | [] => ""
  | x :: xs' =>
      match xs' with
      | [] => x
      | _ :: _ => x +:+ sep +:+ join sep xs'
      end
  end.

Definition nonempty (s : string) : bool := negb (bool_decide (s = "")).

(** The loop of [normalizeArray] runs from the last part to the first and
    counts in [up] the [..] parts still to be applied. *)
Fixpoint normalizeArray_loop (parts : list string) : list string * nat :=
  match parts with
  | [] => ([], 0)
  | p :: rest =>
      let '(kept, up) := normalizeArray_loop rest in
      if bool_decide (p = ".") then (kept, up)
      else if bool_decide (p = "..") then (kept, S up)
      else match up with
           | 0 => (p :: kept, 0)
           | S up' => (kept, up')
           end
  end.

Definition normalizeArray (parts : list string) (allowAboveRoot : bool)
    : list string :=
  let '(kept, up) := normalizeArray_loop parts in
  if allowAboveRoot then replicate up ".." ++ kept else kept.

Definition charAt0_is_slash (p : string) : bool :=
  match p with String c _ => Ascii.eqb c "/"%char | EmptyString => false end.

Fixpoint last_is_slash (p : string) : bool :=
  match p with
  | EmptyString => false
  | String c EmptyString => Ascii.eqb c "/"%char
  | String _ p' => last_is_slash p'
  end.

Definition path_normalize (p : string) : string :=
  let isAbsolute := charAt0_is_slash p in
  let trailingSlash := last_is_slash p in
  let p1 := join "/" (normalizeArray (filter (λ x, nonempty x) (split_on "/"%char p))
                                     (negb isAbsolute)) in
  let p2 := if negb (nonempty p1) && negb isAbsolute then "." else p1 in
  let p3 := if nonempty p2 && trailingSlash then p2 +:+ "/" else p2 in
  (if isAbsolute then "/" else "") +:+ p3.

Definition path_join (paths : list string) : string :=
  path_normalize (join "/" (filter (λ x, nonempty x) paths)).

(** The string a value holds.  [path.join] accepts strings only; every
    value handed to it in this file is a literal or the result of an
    accessor whose constructor returns a string. *)
Definition str (v : JsVal) : string :=
  match v with JStr s => s | _ => "" end.

(** [xs[i]]: [undefined] outside of the array. *)
Definition js_index (xs : list string) (i : Z) : JsVal :=
  if bool_decide (i < 0)%Z then JUndefined
  else from_option JStr JUndefined (xs !! Z.to_nat i).

(** ** The store the gulpfile runs in

    [closures] holds the variable [value] of each closure made by [val],
    under the name of the property the closure is stored in; a name that
    is absent reads as [undefined].  [gulp_seq] is [gulp.seq], the
    resolved sequence of the tasks being run; [process_env] and
    [process_cwd] are [process.env] and [process.cwd()]. *)

Record Store : Type := MkStore {
  closures : gmap string JsVal;
  gulp_seq : list string;
  process_env : gmap string string;
  process_cwd : string
}.

Definition var (k : string) : Slot Store :=
  MkSlot (λ s, default JUndefined (closures s !! k))
         (λ v s, MkStore (<[k := v]> (closures s))
                         (gulp_seq s) (process_env s) (process_cwd s)).

(** [process.env.NAME] *)
Definition process_env_get (name : string) : Js.t Store JsVal :=
  Js.gets (λ s, from_option JStr JUndefined (process_env s !! name)).

(** ** [env]: the task environment *)

Definition env_task : Js.t Store JsVal :=
  val (var "env.task")
    (Js.gets (λ s, js_index (gulp_seq s) (Z.of_nat (length (gulp_seq s)) - 1))).

Definition env_isTest : Js.t Store JsVal :=
  val (var "env.isTest")
    (t ← env_task; mret (JBool (strict_eq_str t "test"))).

Definition env_isTravis : Js.t Store JsVal :=
  val (var "env.isTravis")
    (t ← process_env_get "TRAVIS"; mret (JBool (negb (is_undefined t)))).

Definition env_name : Js.t Store JsVal :=
  val (var "env.name") (mret (JStr "tsutil")).

Definition env_pagesUrl : Js.t Store JsVal :=
  val (var "env.pagesUrl") (process_env_get "PAGES_URL").

(** The compiler project is an object the script never looks into: it is
    kept as the settings it was created from. *)
Definition env_project : Js.t Store JsVal :=
  val (var "env.project")
    (mret (JObj [("declarationFiles", JBool true); ("module", JStr "commonjs");
                 ("noExternalResolve", JBool true); ("noImplicitAny", JBool true);
                 ("noLib", JBool false); ("removeComments", JBool true);
                 ("sortOutput", JBool false); ("target", JStr "ES5")])).

(** ** [globs]: the file globs *)

Definition globs_build : Js.t Store JsVal :=
  val (var "globs.build") (mret (JStr "_build")).

Definition globs_bundle : Js.t Store JsVal :=
  val (var "globs.bundle") (mret (JStr "index.d.ts")).

Definition globs_coverage : Js.t Store JsVal :=
  val (var "globs.coverage") (mret (JStr (path_join ["coverage"; "**"; "lcov.info"]))).

Definition globs_dist : Js.t Store JsVal :=
  val (var "globs.dist") (Js.gets (λ s, JStr (process_cwd s))).

Definition globs_doc : Js.t Store JsVal :=
  val (var "globs.doc") (mret (JStr "doc")).

Definition globs_docs : Js.t Store JsVal :=
  val (var "globs.docs")
    (d ← globs_doc; mret (JStr (path_join [str d; "**"; "*"]))).

Definition globs_gulp : Js.t Store JsVal :=
  val (var "globs.gulp") (mret (JStr "gulpfile.js")).

Definition globs_src : Js.t Store JsVal :=
  val (var "globs.src") (mret (JStr "src")).

Definition globs_test : Js.t Store JsVal :=
  val (var "globs.test") (mret (JStr "test")).

Definition globs_lib : Js.t Store JsVal :=
  val (var "globs.lib")
    (s ← globs_src; mret (JStr (path_join [str s; "**"; "*.ts"]))).

Definition globs_scripts : Js.t Store JsVal :=
  val (var "globs.scripts")
    (b ← globs_build; s ← globs_src;
     mret (JStr (path_join [str b; str s; "**"; "*.js"]))).

Definition globs_tests : Js.t Store JsVal :=
  val (var "globs.tests")
    (b ← globs_build; t ← globs_test;
     mret (JStr (path_join [str b; str t; "**"; "*.js"]))).

Definition globs_ts : Js.t Store JsVal :=
  val (var "globs.ts")
    (s ← globs_src; t ← globs_test;
     mret (JStr (path_join ["{" +:+ str s +:+ "," +:+ str t +:+ "}"; "**"; "*.ts"]))).

Definition globs_types : Js.t Store JsVal :=
  val (var "globs.types")
    (b ← globs_build; s ← globs_src;
     mret (JStr (path_join [str b; str s; "**"; "*.d.ts"]))).

Definition globs_dts : Js.t Store JsVal :=
  val (var "globs.dts")
    (t ← globs_ts;
     mret (JArr [t; JStr "lib/**/*.d.ts"; JStr "typings/**/*.d.ts"])).

(** The store when gulp has loaded the file: no accessor has run. *)
Definition loaded (seq : list string) (penv : gmap string string) (cwd : string)
    : Store :=
  MkStore ∅ seq penv cwd.

(** ** What the accessors hold

    What the store is given from outside: the resolved sequence, the
    environment and the working directory. *)
Definition Ambient : Type := list string * gmap string string * string.

Definition ambient (s : Store) : Ambient :=
  (gulp_seq s, process_env s, process_cwd s).

Definition seq_of (a : Ambient) : list string := a.1.1.
Definition penv_of (a : Ambient) : gmap string string := a.1.2.
Definition cwd_of (a : Ambient) : string := a.2.

(** What each constructor yields for a given ambient, by the name of its
    property.  The table serves to state the invariant [memo_ok]; that the
    constructors do yield these values is proved for each one below. *)
Definition settled (a : Ambient) : list (string * JsVal) :=
  [ ("env.task", js_index (seq_of a) (Z.of_nat (length (seq_of a)) - 1));
    ("env.isTest",
       JBool (strict_eq_str
                (js_index (seq_of a) (Z.of_nat (length (seq_of a)) - 1)) "test"));
    ("env.isTravis", JBool (bool_decide (is_Some (penv_of a !! "TRAVIS"))));
    ("env.name", JStr "tsutil");
    ("env.pagesUrl", from_option JStr JUndefined (penv_of a !! "PAGES_URL"));
    ("env.project",
       JObj [("declarationFiles", JBool true); ("module", JStr "commonjs");
             ("noExternalResolve", JBool true); ("noImplicitAny", JBool true);
             ("noLib", JBool false); ("removeComments", JBool true);
             ("sortOutput", JBool false); ("target", JStr "ES5")]);
    ("globs.build", JStr "_build");
    ("globs.bundle", JStr "index.d.ts");
    ("globs.coverage", JStr "coverage/**/lcov.info");
    ("globs.dist", JStr (cwd_of a));
    ("globs.doc", JStr "doc");
    ("globs.docs", JStr "doc/**/*");
    ("globs.dts",
       JArr [JStr "{src,test}/**/*.ts"; JStr "lib/**/*.d.ts";
             JStr "typings/**/*.d.ts"]);
    ("globs.gulp", JStr "gulpfile.js");
    ("globs.lib", JStr "src/**/*.ts");
    ("globs.scripts", JStr "_build/src/**/*.js");
    ("globs.src", JStr "src");
    ("globs.test", JStr "test");
    ("globs.tests", JStr "_build/test/**/*.js");
    ("globs.ts", JStr "{src,test}/**/*.ts");
    ("globs.types", JStr "_build/src/**/*.d.ts") ].

Fixpoint assoc (k : string) (l : list (string * JsVal)) : option JsVal :=
  match l with
  | [] => None
  | (k', v) :: l' => if bool_decide (k = k') then Some v else assoc k l'
  end.

(** Every closure variable that is set holds what its constructor yields. *)
Definition memo_ok (s : Store) : Prop :=
  ∀ k v, closures s !! k = Some v →
         v = JUndefined ∨ assoc k (settled (ambient s)) = Some v.

(** [m] returns [d] of the ambient, keeps the ambient and keeps [memo_ok]. *)
Definition Settles {A} (m : Js.t Store A) (d : Ambient → A) : Prop :=
  ∀ s, memo_ok s →
       (m s).1 = d (ambient s) ∧ memo_ok (m s).2 ∧ ambient (m s).2 = ambient s.

(** [gulp.seq] replaced, as a later [gulp.start] does. *)
Definition set_seq (seq : list string) (s : Store) : Store :=
  MkStore (closures s) seq (process_env s) (process_cwd s).

(** ** The tasks

    A task has the names of its prerequisites and, unless it only groups
    other tasks, a body; the bodies of the file are named by [Action]. *)

Inductive Action : Type :=
| bundle | clean | copy | coverage | format | jshint
| pages | scripts | spec | tslint | typedoc.

Record Task : Type := MkTask {
  dep : list string;
  fn : option Action
}.

(** Modelled from the spec: [gulp.task(name, dep, fn)], which is the task
    runner's and not in the file, stores the task under its name; a later
    declaration of the same name replaces the earlier one. *)
Definition gulp_task (name : string) (deps : list string) (body : option Action)
    (tasks : gmap string Task) : gmap string Task :=
  <[name := MkTask deps body]> tasks.

(** The declarations of the file, in the order they are made. *)
Definition declarations : list (string * list string * option Action) :=
  [ ("doc", ["pages"], None);
    ("lint", ["jshint"; "tslint"], None);
    ("test", ["coverage"; "lint"], None);
    ("bundle", ["copy"], Some bundle);
    ("clean", [], Some clean);
    ("copy", ["scripts"], Some copy);
    ("coverage", ["spec"], Some coverage);
    ("format", [], Some format);
    ("jshint", [], Some jshint);
    ("pages", ["typedoc"], Some pages);
    ("scripts", ["clean"; "tslint"], Some scripts);
    ("spec", ["scripts"], Some spec);
    ("tslint", [], Some tslint);
    ("typedoc", ["clean"], Some typedoc) ].

Definition gulpfile : gmap string Task :=
  foldl (λ tasks d, gulp_task d.1.1 d.1.2 d.2 tasks) ∅ declarations.

(** [b] is a prerequisite of [a]. *)
Definition prereq (tasks : gmap string Task) (a b : string) : Prop :=
  ∃ t, tasks !! a = Some t ∧ b ∈ dep t.

(** ** The runner *)

Inductive RunError : Type :=
| UnknownTaskError (name : string)
| CyclicDependencyError (chain : list string)
| ActionFailure (name : string).

Inductive Outcome (A : Type) : Type :=
| Done (a : A)
| Failed (e : RunError).
Arguments Done {A}.
Arguments Failed {A}.

(** Modelled from the spec: the resolution of a requested name into the
    sequence of tasks to run, which is the task runner's and not in the
    file.  The prerequisites are visited in declaration order, each before
    the task that names it; a name already in [results] is skipped (first
    visit wins); a name that is not declared is an [UnknownTaskError]; a
    name met again below itself ([nest] is the chain of tasks being
    visited) is a [CyclicDependencyError].  [None] is for a recursion
    deeper than [fuel]. *)
Fixpoint sequence (fuel : nat) (tasks : gmap string Task)
    (nest names results : list string) : option (Outcome (list string)) :=
  match fuel with
  | 0 => None
  | S fuel' =>
      (fix each (names results : list string) {struct names} :=
         match names with
         | [] => Some (Done results)
         | name :: rest =>
             if bool_decide (name ∈ results) then each rest results
             else match tasks !! name with
                  | None => Some (Failed (UnknownTaskError name))
                  | Some node =>
                      if bool_decide (name ∈ nest)
                      then Some (Failed (CyclicDependencyError (nest ++ [name])))
                      else match sequence fuel' tasks (nest ++ [name])
                                          (dep node) results with
                           | Some (Done results') =>
                               each rest (results' ++ [name])
                           | other => other
                           end
                  end
         end) names results
  end.

(** Modelled from the spec: [run(name)] first resolves the sequence.  No
    chain of distinct declared tasks is longer than the table, so a fuel
    of one more than its size is never used up. *)
Definition resolve (tasks : gmap string Task) (names : list string)
    : option (Outcome (list string)) :=
  sequence (S (size tasks)) tasks [] names [].

(** Modelled from the spec: the actions of the resolved sequence run one
    after the other and the first failure ends the run.  [ok name] tells
    whether the action of [name] succeeds; the result is the list of tasks
    whose action was started and the failure, if any. *)
Fixpoint run_actions (ok : string → bool) (seq : list string)
    : list string * option RunError :=
  match seq with
  | [] => ([], None)
  | name :: rest =>
      if ok name
      then let '(ran, err) := run_actions ok rest in (name :: ran, err)
      else ([name], Some (ActionFailure name))
  end.

(** Modelled from the spec: [run(name)] records the resolved sequence in
    the run context ([gulp.seq]) before any action runs; the last element
    of the sequence is what [env.task] reads. *)
Definition start (tasks : gmap string Task) (names : list string) (s : Store)
    : option (Outcome Store) :=
  match resolve tasks names with
  | Some (Done seq) => Some (Done (set_seq seq s))
  | Some (Failed e) => Some (Failed e)
  | None => None
  end.

(** [b] stands before [a] in [l]. *)
Definition before (b a : string) (l : list string) : Prop :=
  ∃ l1 l2, l = l1 ++ a :: l2 ∧ b ∈ l1.

(** Every task of [l] has all its prerequisites before it. *)
Definition closed (tasks : gmap string Task) (l : list string) : Prop :=
  ∀ l1 a l2, l = l1 ++ a :: l2 → ∀ b, prereq tasks a b → b ∈ l1.

(** *** The table of the gulpfile *)

(** The length of the longest chain of prerequisites below a task. *)
Fixpoint depth (fuel : nat) (tasks : gmap string Task) (name : string) : nat :=
  match fuel with
  | 0 => 0
  | S fuel' =>
      match tasks !! name with
      | None => 0
      | Some t => foldr (λ d acc, S (depth fuel' tasks d) `max` acc) 0 (dep t)
      end
  end.

Definition rank (name : string) : nat := depth (size gulpfile) gulpfile name.

(** ** The bodies of [copy] and [pages]

    [gulp.src(globs).pipe(gulp.dest(dir))]: what is read and where it is
    written. *)
Record Piped : Type := MkPiped {
  src : list JsVal;
  dest : JsVal
}.

Definition task_copy : Js.t Store Piped :=
  sc ← globs_scripts; ty ← globs_types; di ← globs_dist;
  mret (MkPiped [sc; ty] di).

(** [gulp.src(globs.docs()).pipe(_.ghPages({remoteUrl: env.pagesUrl()}))] *)
Record Published : Type := MkPublished {
  published : JsVal;
  remoteUrl : JsVal
}.

Definition task_pages : Js.t Store Published :=
  docs ← globs_docs; url ← env_pagesUrl; mret (MkPublished docs url).

(** ** The body of [scripts]

    The events of the stream [compiler.js], in the order they are emitted.
    The listeners of the task are run for each: the first one sets
    [hasError], the second one exits the process, and the pipe to
    [gulp.dest] hands every file on and ends the destination when the
    stream ends (it is attached after the listener of the task, so the
    listener runs first). *)

Inductive Event : Type :=
| EvData (file : string)
| EvError
| EvEnd.

#[export] Instance Event_eq_dec : EqDecision Event.
Proof. solve_decision. Defined.

(** [hasError], the files piped to the build directory, whether the
    destination was ended, and the code of [process.exit] once called. *)
Record Scripts : Type := MkScripts {
  hasError : bool;
  piped : list string;
  ended : bool;
  exit_code : option Z
}.

Definition scripts_begin : Scripts := MkScripts false [] false None.

Definition on_error (st : Scripts) : Scripts :=
  MkScripts true (piped st) (ended st) (exit_code st).

Definition on_end (st : Scripts) : Js.t Store Scripts :=
  t ← env_isTest;
  mret (if truthy t && hasError st
        then MkScripts (hasError st) (piped st) (ended st) (Some 8%Z)
        else MkScripts (hasError st) (piped st) true (exit_code st)).

(** The pipe hands a file on as long as it has not ended the
    destination; at the end of the stream it detaches itself, and what is
    emitted after that is handed on no more. *)
Definition on_data (file : string) (st : Scripts) : Scripts :=
  if ended st then st
  else MkScripts (hasError st) (piped st ++ [file]) (ended st) (exit_code st).

(** After [process.exit] nothing runs any more. *)
Definition emit (ev : Event) (st : Scripts) : Js.t Store Scripts :=
  match exit_code st with
  | Some _ => mret st
  | None =>
      match ev with
      | EvData file => mret (on_data file st)
      | EvError => mret (on_error st)
      | EvEnd => on_end st
      end
  end.

Fixpoint task_scripts (events : list Event) (st : Scripts) : Js.t Store Scripts :=
  match events with
  | [] => mret st
  | ev :: rest => st' ← emit ev st; task_scripts rest st'
  end.

(** The files among the events. *)
Definition files (events : list Event) : list string :=
  omap (λ ev, match ev with EvData f => Some f | _ => None end) events.

(** Whether the run was asked for ['test']. *)
Definition test_mode (s : Store) : bool :=
  strict_eq_str
    (js_index (gulp_seq s) (Z.of_nat (length (gulp_seq s)) - 1)) "test".

(** ** The body of [spec], once the tests have run

    The summary of the coverage is an object; it is kept as its
    properties, name and value, in the order [Object.keys] lists them.
    The task reads the property [pct] of each value and tests nothing
    else about it. *)

Inductive JsError : Type :=
| Error (message : string).

Definition Object_keys (coverage : list (string * JsVal)) : list string :=
  coverage.*1.

(** [coverage[key]]: [undefined] under a name that is not there. *)
Definition member (key : string) (coverage : list (string * JsVal)) : JsVal :=
  default JUndefined (assoc key coverage).

(** [entry.pct].  Reading a property of [undefined] or [null] throws
    ([None]); a value that has no such property gives [undefined]. *)
Definition get_pct (entry : JsVal) : option JsVal :=
  match entry with
  | JUndefined | JNull => None
  | JObj fields => Some (default JUndefined (assoc "pct" fields))
  | JBool _ | JNum _ | JStr _ | JArr _ => Some JUndefined
  end.

(** [v !== 100]: true of everything but a number equal to 100. *)
Definition strict_ne_100 (v : JsVal) : bool :=
  match v with
  | JNum x => negb (PrimFloat.eqb x 100%float)
  | _ => true
  end.

(** [coverage[key].pct !== 100] *)
Definition below (coverage : list (string * JsVal)) (key : string)
    : option bool :=
  strict_ne_100 <$> get_pct (member key coverage).

(** [keys.filter(test)]: the keys the test is true of, in order; a test
    that throws ends it ([None]). *)
Fixpoint filter_keys (test : string → option bool) (keys : list string)
    : option (list string) :=
  match keys with
  | [] => Some []
  | key :: rest =>
      match test key with
      | None => None
      | Some b =>
          match filter_keys test rest with
          | None => None
          | Some l => Some (if b then key :: l else l)
          end
      end
  end.

Definition incomplete (coverage : list (string * JsVal)) : option (list string) :=
  filter_keys (below coverage) (Object_keys coverage).

(** The listener of ['end']: what it hands to [callback], or [None] when
    it throws before it gets there. *)
Definition task_spec (coverage : list (string * JsVal))
    : option (option JsError) :=
  match incomplete coverage with
  | None => None
  | Some incomplete =>
      let errOrNull := None in
      let errOrNull :=
        if 0 <? length incomplete
        then Some (Error ("Incomplete coverage for " +:+ join ", " incomplete))
        else errOrNull in
      Some errOrNull
  end.

(** The figures of a metric that is covered in full. *)
Definition covered_in_full : JsVal :=
  JObj [("total", JNum 12%float); ("covered", JNum 12%float);
        ("skipped", JNum 0%float); ("pct", JNum 100%float)].

(** A summary as istanbul 0.4 makes it: the four metrics and
    [linesCovered], which has no [pct]; here all is covered. *)
Definition summary_in_full : list (string * JsVal) :=
  [ ("lines", covered_in_full); ("statements", covered_in_full);
    ("functions", covered_in_full); ("branches", covered_in_full);
    ("linesCovered", JObj []) ].

(** The first character of [key] is a digit.  A name that is an array
    index is listed by [Object.keys] before the others; a name that does
    not start with a digit is none. *)
Definition starts_with_digit (key : string) : bool :=
  match key with
  | String c _ => (48 <=? nat_of_ascii c) && (nat_of_ascii c <=? 57)
  | EmptyString => false
  end.

(** ** The body of [clean] and the files on disk

    The files of the project are a map from their path, taken from the
    working directory, to their content. *)

(** [path] is [dir] or lies below it. *)
Definition under (dir path : string) : bool :=
  bool_decide (path = dir) || String.prefix (dir +:+ "/") path.

(** Modelled from the spec: the file-deletion utility [del], which is not
    in the file.  Each pattern here is a plain name; what it names is
    removed with all that lies below it, and nothing else is. *)
Definition del (patterns : list string) (fs : gmap string string)
    : gmap string string :=
  filter (λ entry, existsb (λ dir, under dir entry.1) patterns = false) fs.

(** What [clean] hands to [del]. *)
Definition task_clean_patterns : Js.t Store (list JsVal) :=
  b ← globs_build; d ← globs_doc; mret [b; d].

Definition task_clean (fs : gmap string string) : Js.t Store (gmap string string) :=
  patterns ← task_clean_patterns; mret (del (str <$> patterns) fs).

(** Modelled from the spec: [gulp.dest(dir)], which is not in the file,
    writes each file it is given at its relative path below [dir]. *)
Definition gulp_dest (dir : string) (outputs : list (string * string))
    (fs : gmap string string) : gmap string string :=
  foldl (λ acc out, <[path_join [dir; out.1] := out.2]> acc) fs outputs.

(** What [scripts] writes: the compiled scripts and declarations, which
    come from the compiler, into the build directory. *)
Definition task_scripts_writes (compiled : list (string * string))
    (fs : gmap string string) : Js.t Store (gmap string string) :=
  b ← globs_build; mret (gulp_dest (str b) compiled fs).

(** ** More of the file

    *** Repeated runs of a constructor

    The world after [j] runs of [f], one after the other. *)
Fixpoint reruns {W} (f : W → JsVal * W) (j : nat) (w : W) : W :=
  match j with
  | 0 => w
  | S j' => reruns f j' (f w).2
  end.

(** *** The accessors of [env] and [globs]

    Each accessor with the name of its property and the names of the
    accessors its constructor calls, directly or through them. *)
Definition accessors : list (string * Js.t Store JsVal * list string) :=
  [ ("env.isTest", env_isTest, ["env.task"]);
    ("env.isTravis", env_isTravis, []);
    ("env.name", env_name, []);
    ("env.pagesUrl", env_pagesUrl, []);
    ("env.project", env_project, []);
    ("env.task", env_task, []);
    ("globs.build", globs_build, []);
    ("globs.bundle", globs_bundle, []);
    ("globs.coverage", globs_coverage, []);
    ("globs.dist", globs_dist, []);
    ("globs.doc", globs_doc, []);
    ("globs.docs", globs_docs, ["globs.doc"]);
    ("globs.dts", globs_dts, ["globs.ts"; "globs.src"; "globs.test"]);
    ("globs.gulp", globs_gulp, []);
    ("globs.lib", globs_lib, ["globs.src"]);
    ("globs.scripts", globs_scripts, ["globs.build"; "globs.src"]);
    ("globs.src", globs_src, []);
    ("globs.test", globs_test, []);
    ("globs.tests", globs_tests, ["globs.build"; "globs.test"]);
    ("globs.ts", globs_ts, ["globs.src"; "globs.test"]);
    ("globs.types", globs_types, ["globs.build"; "globs.src"]) ].

(** Accessors called one after the other; their results are dropped. *)
Fixpoint call_all (accs : list (Js.t Store JsVal)) : Js.t Store unit :=
  match accs with
  | [] => mret tt
  | acc :: rest => _ ← acc; call_all rest
  end.

(** [m] leaves [gulp.seq], [process.env] and the working directory alone
    and writes no closure variable outside of [names]. *)
Definition Touches {A} (m : Js.t Store A) (names : list string) : Prop :=
  ∀ s, ambient (m s).2 = ambient s
       ∧ ∀ k, k ∉ names → closures (m s).2 !! k = closures s !! k.

(** [process.env] replaced, as an assignment to one of its properties does. *)
Definition set_env (penv : gmap string string) (s : Store) : Store :=
  MkStore (closures s) (gulp_seq s) penv (process_cwd s).

(** *** The bodies of the other tasks *)

(** [_.dtsBundle.bundle({main: ..., name: ..., prefix: '', removeSource: true})] *)
Record Bundled : Type := MkBundled {
  main : JsVal;
  bundle_name : JsVal;
  prefix : string;
  removeSource : bool
}.

Definition task_bundle : Js.t Store Bundled :=
  m ← globs_bundle; n ← env_name; mret (MkBundled m n "" true).

(** [gulp.src(globs.coverage()).pipe(_.coveralls())] *)
Definition task_coverage : Js.t Store JsVal := globs_coverage.

(** What [format] does: it runs the formatter on files, with its options
    ([editorconfig], [replace], [tsfmt], [tslint]), and calls back. *)
Inductive FormatStep : Type :=
| ProcessFiles (files : list string) (editorconfig replace tsfmt tslint_rules : bool)
| Callback (arg : JsVal).

(** The pattern [format] hands to [_.glob]. *)
Definition task_format : Js.t Store JsVal := globs_ts.

(** The function [format] hands to [_.glob], called with the error and the
    files found. *)
Definition task_format_found (err : JsVal) (files : list string)
    : list FormatStep :=
  if truthy err then [Callback err]
  else [ProcessFiles files false true false true; Callback JNull].

(** [gulp.src(globs.gulp())], [_.jshint()], the reporters piped to in
    order; [_.if(c, r)] pipes to [r] when [c] is truthy. *)
Record Hinted : Type := MkHinted {
  hinted : JsVal;
  reporters : list string
}.

Definition task_jshint : Js.t Store Hinted :=
  g ← globs_gulp; t ← env_isTest;
  mret (MkHinted g ("jshint-stylish" :: if truthy t then ["fail"] else [])).

(** [gulp.src(globs.ts()).pipe(_.tslint()).pipe(_.tslint.report({emitError: ...}))] *)
Record Linted : Type := MkLinted {
  linted : JsVal;
  emitError : JsVal
}.

Definition task_tslint : Js.t Store Linted :=
  g ← globs_ts; t ← env_isTest; mret (MkLinted g t).

(** The start of [scripts]: what is compiled, with which project, and
    where the declarations and the scripts are written. *)
Record Compiled : Type := MkCompiled {
  sources : JsVal;
  project : JsVal;
  dts_dest : JsVal;
  js_dest : JsVal
}.

Definition task_scripts_begin : Js.t Store Compiled :=
  d ← globs_dts; p ← env_project; b1 ← globs_build; b2 ← globs_build;
  mret (MkCompiled d p b1 b2).

(** The start of [spec]: the local [reporters] and the scripts that are
    instrumented. *)
Definition task_spec_begin : Js.t Store (list string * JsVal) :=
  t ← env_isTravis;
  sc ← globs_scripts;
  mret (["text"; "text-summary"] ++ (if negb (truthy t) then ["html"] else []),
        sc).

(** The listener of ['finish'] of [spec]: the tests that are run and the
    reporter of [_.mocha]. *)
Definition task_spec_finish : Js.t Store (JsVal * string) :=
  te ← globs_tests; t ← env_isTravis;
  mret (te, if truthy t then "spec" else "nyan").

(** [gulp.src(globs.lib()).pipe(_.typedoc({...}))] *)
Record Documented : Type := MkDocumented {
  documented : JsVal;
  doc_module : string;
  doc_name : JsVal;
  out : JsVal;
  doc_target : string;
  theme : string
}.

Definition task_typedoc : Js.t Store Documented :=
  l ← globs_lib; n ← env_name; o ← globs_doc;
  mret (MkDocumented l "commonjs" n o "ES5" "minimal").

(** The name a body is declared under. *)
Definition name_of (a : Action) : string :=
  match a with
  | bundle => "bundle" | clean => "clean" | copy => "copy"
  | coverage => "coverage" | format => "format" | jshint => "jshint"
  | pages => "pages" | scripts => "scripts" | spec => "spec"
  | tslint => "tslint" | typedoc => "typedoc"
  end.

(** The elements of an array of globs, a single glob being an array of one. *)
Definition globs_of (v : JsVal) : list JsVal :=
  match v with JArr xs => xs | _ => [v] end.

(** The globs a body hands to [gulp.src] or [_.glob]. *)
Definition reads (a : Action) : Js.t Store (list JsVal) :=
  match a with
  | bundle | clean => mret []
  | copy => p ← task_copy; mret (src p)
  | coverage => g ← task_coverage; mret [g]
  | format => g ← task_format; mret [g]
  | jshint => h ← task_jshint; mret [hinted h]
  | pages => p ← task_pages; mret [published p]
  | scripts => c ← task_scripts_begin; mret (globs_of (sources c))
  | spec => b ← task_spec_begin; f ← task_spec_finish; mret [b.2; f.1]
  | tslint => l ← task_tslint; mret [linted l]
  | typedoc => d ← task_typedoc; mret [documented d]
  end.

(** [glob] names files in or below the directory [dir]. *)
Definition below_dir (dir glob : JsVal) : bool :=
  String.prefix (str dir +:+ "/") (str glob).

(** *** The listeners of [scripts], with the answer of [env.isTest()]
    given *)
Definition emit_with (test : bool) (ev : Event) (st : Scripts) : Scripts :=
  match exit_code st with
  | Some _ => st
  | None =>
      match ev with
      | EvData file => on_data file st
      | EvError => on_error st
      | EvEnd =>
          if test && hasError st
          then MkScripts (hasError st) (piped st) (ended st) (Some 8%Z)
          else MkScripts (hasError st) (piped st) true (exit_code st)
      end
  end.

Definition scripts_with (test : bool) (events : list Event) (st : Scripts)
    : Scripts :=
  foldl (λ st ev, emit_with test ev st) st events.

(** [m] does not read [process.env]: a change of it beforehand changes
    neither the result nor what [m] writes. *)
Definition Ignores_env {A} (m : Js.t Store A) : Prop :=
  ∀ penv s, m (set_env penv s) = ((m s).1, set_env penv (m s).2).

#[export] Instance Action_eq_dec : EqDecision Action.
Proof. solve_decision. Defined.

Definition is_callback (step : FormatStep) : bool :=
  match step with Callback _ => true | ProcessFiles _ _ _ _ _ => false end.

#[export] Instance Task_eq_dec : EqDecision Task.
Proof. solve_decision. Defined.

(** * Properties *)

(** ** Properties of [val] *)

Section val_facts.
Context {W : Type}.
Implicit Types (f : W → JsVal * W) (w : W) (c : Cell W).

Lemma accessor_unset f c :
  value c = JUndefined →
  accessor f c =
    ((f (world c)).1, MkCell (f (world c)).1 (f (world c)).2 (S (invoked c))).
Proof.
  intros Hc. unfold accessor, val, constructor; simpl.
  rewrite Hc; simpl. by destruct (f (world c)).
Qed.

Lemma accessor_set f c :
  value c ≠ JUndefined → accessor f c = (value c, c).
Proof.
  intros Hc. unfold accessor, val; simpl.
  destruct (value c) eqn:E; simpl; rewrite ?E; done.
Qed.

Lemma repeat_accessor_set f c n :
  value c ≠ JUndefined →
  Js.repeat n (accessor f) c = (replicate n (value c), c).
Proof.
  intros Hc. induction n as [|n IH]; [done|].
  simpl. unfold Js.bind. rewrite accessor_set by done.
  by rewrite IH.
Qed.
End val_facts.

(** C1: [val] does not run its function once when the first result is
    [undefined].  [late_constructor] counts its runs and returns
    [undefined] the first time: the first call of the accessor returns
    [undefined] and keeps nothing, the second call runs the constructor
    again and returns ['ready'], so the two calls differ and the
    constructor has run twice. *)
Theorem val_runs_twice_on_undefined :
  ¬ runs_once late_constructor 0
  ∧ accessor late_constructor (fresh 0) = (JUndefined, MkCell JUndefined 1 1)
  ∧ accessor late_constructor (MkCell JUndefined 1 1)
      = (JStr "ready", MkCell (JStr "ready") 2 2).
Proof.
  split; [|done].
  unfold runs_once. vm_compute. intros [? _]. discriminate.
Qed.

(** What [val] does keep.  For a constructor [f] that acts on the world
    only (it does not call the accessor itself) and whose first result is
    not [undefined], every one of [n + 1] calls of the accessor returns
    that first result and [f] has been invoked once; the result may be
    falsy: [null], [false], [0], [NaN] or the empty string. *)
Lemma val_runs_once_unless_undefined {W} (f : W → JsVal * W) (w : W) (n : nat) :
  (f w).1 ≠ JUndefined →
  Js.repeat (S n) (accessor f) (fresh w)
    = (replicate (S n) (f w).1, MkCell (f w).1 (f w).2 1)
  ∧ runs_once f w.
Proof.
  intros Hv. split.
  - simpl. unfold Js.bind.
    rewrite accessor_unset by done.
    rewrite repeat_accessor_set by done. done.
  - unfold runs_once. rewrite accessor_unset by done.
    rewrite accessor_set by done. done.
Qed.

Lemma val_runs_once_unless_undefined_examples :
  (late_constructor 1).1 ≠ JUndefined
  ∧ Js.repeat 3 (accessor late_constructor) (fresh 1)
      = (replicate 3 (JStr "ready"), MkCell (JStr "ready") 2 1)
  ∧ runs_once late_constructor 1
  ∧ runs_once (λ w : nat, (JBool false, S w)) 0
  ∧ runs_once (λ w : nat, (JStr "", S w)) 0
  ∧ runs_once (λ w : nat, (JNull, S w)) 0
  ∧ runs_once (λ w : nat, (JNum 0%float, S w)) 0.
Proof.
  split; [discriminate|].
  split; [exact (proj1 (val_runs_once_unless_undefined late_constructor 1 2
                          ltac:(discriminate)))|].
  split; [exact (proj2 (val_runs_once_unless_undefined late_constructor 1 0
                          ltac:(discriminate)))|].
  split; [exact (proj2 (val_runs_once_unless_undefined
                          (λ w : nat, (JBool false, S w)) 0 0 ltac:(discriminate)))|].
  split; [exact (proj2 (val_runs_once_unless_undefined
                          (λ w : nat, (JStr "", S w)) 0 0 ltac:(discriminate)))|].
  split; [exact (proj2 (val_runs_once_unless_undefined
                          (λ w : nat, (JNull, S w)) 0 0 ltac:(discriminate)))|].
  exact (proj2 (val_runs_once_unless_undefined
                  (λ w : nat, (JNum 0%float, S w)) 0 0 ltac:(discriminate))).
Defined.

Section settles.
Implicit Types (s : Store) (a : Ambient) (k : string).

Lemma memo_ok_loaded seq penv cwd : memo_ok (loaded seq penv cwd).
Proof. intros k v Hk. simpl in Hk. by rewrite lookup_empty in Hk. Qed.

Lemma Settles_ret {A} (x : A) : Settles (mret x) (λ _, x).
Proof. by intros s Hs. Qed.

Lemma Settles_gets {A} (d : Ambient → A) :
  Settles (Js.gets (λ s, d (ambient s))) d.
Proof. by intros s Hs. Qed.

Lemma Settles_bind {A B} (m : Js.t Store A) (f : A → Js.t Store B) d e :
  Settles m d → (∀ x, Settles (f x) (e x)) →
  Settles (m ≫= f) (λ a, e (d a) a).
Proof.
  intros Hm Hf s Hs. unfold mbind, js_bind, Js.bind.
  destruct (Hm s Hs) as (Hv & Hok & Ha).
  destruct (m s) as [x s1]; simpl in *. subst x.
  destruct (Hf (d (ambient s)) s1 Hok) as (Hv' & Hok' & Ha').
  rewrite Hv', Ha', Ha. by rewrite Ha in *.
Qed.

Lemma Settles_ext {A} (m : Js.t Store A) d d' :
  Settles m d → (∀ a, d a = d' a) → Settles m d'.
Proof.
  intros Hm Hd s Hs. destruct (Hm s Hs) as (Hv & Hok & Ha).
  by rewrite <- Hd.
Qed.

Lemma memo_ok_set k v s :
  memo_ok s → assoc k (settled (ambient s)) = Some v →
  memo_ok (slot_set (var k) v s).
Proof.
  intros Hs Hk k' v' Hk'. simpl in Hk'.
  change (ambient (slot_set (var k) v s)) with (ambient s).
  destruct (decide (k = k')) as [->|Hne].
  - rewrite lookup_insert_eq in Hk'. right. congruence.
  - rewrite lookup_insert_ne in Hk' by done. by apply Hs.
Qed.

(** The rule of [val]: the accessor returns what its constructor yields,
    whether the variable was set before or not. *)
Lemma Settles_val k fn d :
  (∀ a, assoc k (settled a) = Some (d a)) →
  Settles fn d → Settles (val (var k) fn) d.
Proof.
  intros Hk Hfn s Hs. unfold val.
  destruct (is_undefined (slot_get (var k) s)) eqn:Hu.
  - destruct (Hfn s Hs) as (Hv & Hok & Ha).
    destruct (fn s) as [v s1]; simpl in Hv, Hok, Ha. subst v.
    cbv zeta. simpl. rewrite lookup_insert_eq. simpl.
    split; [done|]. split; [|done].
    apply (memo_ok_set k _ s1); [done|]. by rewrite Ha.
  - cbv zeta. split; [|done]. simpl in Hu |- *.
    destruct (closures s !! k) as [v|] eqn:Hv; [|done]. simpl in Hu |- *.
    destruct (Hs k v Hv) as [->|Hv']; [done|].
    rewrite Hk in Hv'. congruence.
Qed.
End settles.

Create HintDb settles.

Ltac settles :=
  cbv beta;
  lazymatch goal with
  | |- Settles (val (var _) _) _ =>
      apply Settles_val; [intros; reflexivity|]; settles
  | |- Settles (mret _) _ => exact (Settles_ret _)
  | |- Settles (_ ≫= _) _ =>
      eapply Settles_ext;
        [eapply Settles_bind; [settles | intros; settles] | intros; reflexivity]
  | |- Settles _ _ =>
      first [ eassumption
            | eapply Settles_ext;
                [solve [eauto with settles] | intros; reflexivity] ]
  end.

Lemma env_task_settles :
  Settles env_task
    (λ a, js_index (seq_of a) (Z.of_nat (length (seq_of a)) - 1)).
Proof.
  apply Settles_val; [done|].
  apply (Settles_gets
           (λ a, js_index (seq_of a) (Z.of_nat (length (seq_of a)) - 1))).
Qed.
#[export] Hint Resolve env_task_settles : settles.

Lemma env_isTest_settles :
  Settles env_isTest
    (λ a, JBool (strict_eq_str
                   (js_index (seq_of a) (Z.of_nat (length (seq_of a)) - 1))
                   "test")).
Proof.
  apply Settles_val; [done|].
  apply (Settles_bind _ _ _ (λ t _, JBool (strict_eq_str t "test"))).
  - apply env_task_settles.
  - intros t. apply Settles_ret.
Qed.
#[export] Hint Resolve env_isTest_settles : settles.

Lemma process_env_get_settles name :
  Settles (process_env_get name)
    (λ a, from_option JStr JUndefined (penv_of a !! name)).
Proof.
  apply (Settles_gets (λ a, from_option JStr JUndefined (penv_of a !! name))).
Qed.
#[export] Hint Resolve process_env_get_settles : settles.

Lemma env_isTravis_settles :
  Settles env_isTravis
    (λ a, JBool (bool_decide (is_Some (penv_of a !! "TRAVIS")))).
Proof.
  apply Settles_val; [done|].
  eapply Settles_ext.
  - eapply Settles_bind; [apply process_env_get_settles|].
    intros t. exact (Settles_ret _).
  - intros a. simpl. by destruct (penv_of a !! "TRAVIS").
Qed.
#[export] Hint Resolve env_isTravis_settles : settles.

Lemma env_name_settles : Settles env_name (λ _, JStr "tsutil").
Proof. unfold env_name. settles. Qed.
#[export] Hint Resolve env_name_settles : settles.

Lemma env_pagesUrl_settles :
  Settles env_pagesUrl
    (λ a, from_option JStr JUndefined (penv_of a !! "PAGES_URL")).
Proof. apply Settles_val; [done|]. apply process_env_get_settles. Qed.
#[export] Hint Resolve env_pagesUrl_settles : settles.

Lemma globs_build_settles : Settles globs_build (λ _, JStr "_build").
Proof. unfold globs_build. settles. Qed.
#[export] Hint Resolve globs_build_settles : settles.

Lemma globs_bundle_settles : Settles globs_bundle (λ _, JStr "index.d.ts").
Proof. unfold globs_bundle. settles. Qed.

Lemma globs_coverage_settles :
  Settles globs_coverage (λ _, JStr "coverage/**/lcov.info").
Proof. unfold globs_coverage. settles. Qed.

Lemma globs_dist_settles : Settles globs_dist (λ a, JStr (cwd_of a)).
Proof.
  apply Settles_val; [done|]. apply (Settles_gets (λ a, JStr (cwd_of a))).
Qed.

Lemma globs_doc_settles : Settles globs_doc (λ _, JStr "doc").
Proof. unfold globs_doc. settles. Qed.
#[export] Hint Resolve globs_doc_settles : settles.

Lemma globs_docs_settles : Settles globs_docs (λ _, JStr "doc/**/*").
Proof. unfold globs_docs. settles. Qed.

Lemma globs_gulp_settles : Settles globs_gulp (λ _, JStr "gulpfile.js").
Proof. unfold globs_gulp. settles. Qed.

Lemma globs_src_settles : Settles globs_src (λ _, JStr "src").
Proof. unfold globs_src. settles. Qed.
#[export] Hint Resolve globs_src_settles : settles.

Lemma globs_test_settles : Settles globs_test (λ _, JStr "test").
Proof. unfold globs_test. settles. Qed.
#[export] Hint Resolve globs_test_settles : settles.

Lemma globs_lib_settles : Settles globs_lib (λ _, JStr "src/**/*.ts").
Proof. unfold globs_lib. settles. Qed.

Lemma globs_scripts_settles :
  Settles globs_scripts (λ _, JStr "_build/src/**/*.js").
Proof. unfold globs_scripts. settles. Qed.

Lemma globs_tests_settles :
  Settles globs_tests (λ _, JStr "_build/test/**/*.js").
Proof. unfold globs_tests. settles. Qed.

Lemma globs_ts_settles : Settles globs_ts (λ _, JStr "{src,test}/**/*.ts").
Proof. unfold globs_ts. settles. Qed.
#[export] Hint Resolve globs_ts_settles : settles.

Lemma globs_types_settles :
  Settles globs_types (λ _, JStr "_build/src/**/*.d.ts").
Proof. unfold globs_types. settles. Qed.

Lemma globs_dts_settles :
  Settles globs_dts
    (λ _, JArr [JStr "{src,test}/**/*.ts"; JStr "lib/**/*.d.ts";
                JStr "typings/**/*.d.ts"]).
Proof. unfold globs_dts. settles. Qed.

(** ** Properties of the resolution *)

Section sequence_facts.
Variable tasks : gmap string Task.
Implicit Types (nest names results out : list string) (name : string).

Lemma sequence_nil fuel nest results :
  sequence (S fuel) tasks nest [] results = Some (Done results).
Proof. reflexivity. Qed.

Lemma sequence_cons fuel nest name rest results :
  sequence (S fuel) tasks nest (name :: rest) results =
    if bool_decide (name ∈ results) then sequence (S fuel) tasks nest rest results
    else match tasks !! name with
         | None => Some (Failed (UnknownTaskError name))
         | Some node =>
             if bool_decide (name ∈ nest)
             then Some (Failed (CyclicDependencyError (nest ++ [name])))
             else match sequence fuel tasks (nest ++ [name]) (dep node) results with
                  | Some (Done results') =>
                      sequence (S fuel) tasks nest rest (results' ++ [name])
                  | other => other
                  end
         end.
Proof. reflexivity. Qed.

Lemma closed_nil : closed tasks [].
Proof. intros l1 a l2 Hl. by destruct l1. Qed.

Lemma closed_snoc l a :
  closed tasks l → (∀ b, prereq tasks a b → b ∈ l) → closed tasks (l ++ [a]).
Proof.
  intros Hl Ha l1 x l2 Heq b Hb.
  destruct l2 as [|y l2 _] using rev_ind.
  - apply app_inj_tail in Heq as [-> ->]. by apply Ha.
  - change (l ++ [a] = l1 ++ (x :: l2) ++ [y]) in Heq.
    rewrite app_assoc in Heq. apply app_inj_tail in Heq as [-> ->].
    by eapply Hl.
Qed.

Lemma closed_elem l a b :
  closed tasks l → a ∈ l → prereq tasks a b → before b a l.
Proof.
  intros Hl Ha Hb. apply list_elem_of_split in Ha as (l1 & l2 & ->).
  exists l1, l2. split; [done|]. by eapply Hl.
Qed.

(** What a successful resolution adds to [results]: tasks that were not
    there, each once, each reachable from a requested name, the requested
    names among them, every task after its prerequisites. *)
Lemma sequence_done fuel : ∀ nest names results out,
  sequence fuel tasks nest names results = Some (Done out) →
  ∃ ext, (out = (results ++ ext))
    ∧ NoDup ext
    ∧ (∀ x, x ∈ ext →
         (x ∉ results) ∧ (x ∉ nest)
         ∧ ∃ n, n ∈ names ∧ rtc (prereq tasks) n x)
    ∧ (∀ x, x ∈ names → x ∈ out)
    ∧ (closed tasks results → closed tasks out).
Proof.
  induction fuel as [|fuel IHf]; [done|].
  intros nest names. induction names as [|name rest IHn]; intros results out H.
  - rewrite sequence_nil in H. injection H as <-.
    exists []. rewrite app_nil_r. split_and!; try done.
    + constructor.
    + intros x Hx. by apply elem_of_nil in Hx.
    + intros x Hx. by apply elem_of_nil in Hx.
  - rewrite sequence_cons in H. case_bool_decide as Hres.
    { destruct (IHn _ _ H) as (ext & -> & Hnd & Hext & Hin & Hcl).
      exists ext. split_and!; try done.
      - intros x Hx. destruct (Hext x Hx) as (? & ? & n & Hn & Hr).
        split_and!; try done. exists n. split; [by right|done].
      - intros x [->|Hx]%elem_of_cons; [|by apply Hin].
        apply elem_of_app. by left. }
    destruct (tasks !! name) as [node|] eqn:Hnode; [|done].
    case_bool_decide as Hnest; [done|].
    destruct (sequence fuel tasks (nest ++ [name]) (dep node) results)
      as [[results'|e]|] eqn:Hrec; [|done|done].
    destruct (IHf _ _ _ _ Hrec) as (ext1 & -> & Hnd1 & Hext1 & Hin1 & Hcl1).
    destruct (IHn _ _ H) as (ext2 & -> & Hnd2 & Hext2 & Hin2 & Hcl2).
    exists (ext1 ++ [name] ++ ext2).
    assert (Hname1 : name ∉ ext1).
    { intros Hx. destruct (Hext1 _ Hx) as (_ & Hn & _).
      apply Hn, elem_of_app. right. by apply list_elem_of_singleton. }
    split_and!.
    + by rewrite <- !app_assoc.
    + apply NoDup_app. split_and!; [done| |].
      * intros x Hx1 [->%list_elem_of_singleton|Hx2]%elem_of_app; [done|].
        destruct (Hext2 _ Hx2) as (Hn & _). apply Hn.
        rewrite <- app_assoc. apply elem_of_app. right. apply elem_of_app. by left.
      * apply NoDup_app. split_and!; [apply NoDup_singleton| |done].
        intros x ->%list_elem_of_singleton Hx2.
        destruct (Hext2 _ Hx2) as (Hn & _). apply Hn.
        apply elem_of_app. right. by apply list_elem_of_singleton.
    + intros x [Hx|[->%list_elem_of_singleton|Hx]%elem_of_app]%elem_of_app.
      * destruct (Hext1 _ Hx) as (Hr & Hn & n & Hdep & Hreach).
        split_and!; [done| |].
        { intros ?. apply Hn, elem_of_app. by left. }
        exists name. split; [by left|].
        eapply rtc_l; [|done]. by exists node.
      * split_and!; [done|done|]. exists name. split; [by left|done].
      * destruct (Hext2 _ Hx) as (Hr & Hn & n & Hdep & Hreach).
        split_and!; [|done|].
        { intros ?. apply Hr. rewrite <- app_assoc. apply elem_of_app. by left. }
        exists n. split; [by right|done].
    + intros x [->|Hx]%elem_of_cons; [|by apply Hin2].
      apply elem_of_app. left. apply elem_of_app. right.
      by apply list_elem_of_singleton.
    + intros Hcl. apply Hcl2, closed_snoc; [by apply Hcl1|].
      intros b (node' & Hnode' & Hb). rewrite Hnode in Hnode'.
      injection Hnode' as <-. by apply Hin1.
Qed.

(** The resolved sequence of a request: no task twice, exactly the tasks
    reachable from the requested names, prerequisites first. *)
Lemma resolve_done names out :
  resolve tasks names = Some (Done out) →
  NoDup out
  ∧ (∀ x, x ∈ out ↔ ∃ n, n ∈ names ∧ rtc (prereq tasks) n x)
  ∧ closed tasks out.
Proof.
  intros H. apply sequence_done in H as (ext & -> & Hnd & Hext & Hin & Hcl).
  simpl in *. specialize (Hcl closed_nil). split_and!; [done| |done].
  intros x. split.
  - intros Hx. by destruct (Hext x Hx) as (_ & _ & ?).
  - intros (n & Hn & Hreach). revert x Hreach. apply rtc_ind_r.
    + by apply Hin.
    + intros a b _ Hab IH.
      destruct (closed_elem _ _ _ Hcl IH Hab) as (l1 & l2 & -> & Hb).
      apply elem_of_app. by left.
Qed.

(** A chain of distinct declared tasks is no longer than the table. *)
Lemma nest_bound nest :
  NoDup nest → (∀ x, x ∈ nest → is_Some (tasks !! x)) →
  length nest ≤ size tasks.
Proof.
  intros Hnd Hdecl.
  rewrite <- (size_list_to_set (C := gset string) nest) by done.
  rewrite <- (size_dom (D := gset string) tasks).
  apply subseteq_size. intros x Hx%elem_of_list_to_set.
  by apply elem_of_dom, Hdecl.
Qed.

Lemma sequence_fuel fuel : ∀ nest names results,
  NoDup nest → (∀ x, x ∈ nest → is_Some (tasks !! x)) →
  size tasks < fuel + length nest →
  is_Some (sequence fuel tasks nest names results).
Proof.
  induction fuel as [|fuel IHf]; intros nest names results Hnd Hdecl Hsz.
  { pose proof (nest_bound nest Hnd Hdecl). simpl in Hsz. lia. }
  revert results. induction names as [|name rest IHn]; intros results.
  - by rewrite sequence_nil.
  - rewrite sequence_cons. case_bool_decide; [done|].
    destruct (tasks !! name) as [node|] eqn:Hnode; [|done].
    case_bool_decide as Hnest; [done|].
    destruct (IHf (nest ++ [name]) (dep node) results) as [[r|e] Hr].
    + apply NoDup_app. split_and!; [done| |apply NoDup_singleton].
      by intros x Hx ->%list_elem_of_singleton.
    + intros x [Hx| ->%list_elem_of_singleton]%elem_of_app; [by apply Hdecl|done].
    + rewrite length_app. simpl. lia.
    + rewrite Hr. apply IHn.
    + by rewrite Hr.
Qed.

(** The resolution always ends, in a sequence or in an error. *)
Lemma resolve_total names : is_Some (resolve tasks names).
Proof.
  apply sequence_fuel; [constructor| |simpl; lia].
  intros x Hx. by apply elem_of_nil in Hx.
Qed.
End sequence_facts.

(** *** Tables whose prerequisites go down a rank *)

Section ranked.
Variable tasks : gmap string Task.
Variable rank : string → nat.
Hypothesis ranked :
  ∀ a b, prereq tasks a b → is_Some (tasks !! b) ∧ rank b < rank a.

Lemma ranked_tc a b : tc (prereq tasks) a b → rank b < rank a.
Proof using ranked.
  induction 1 as [a b Hab|a b c Hab _ IH].
  - by apply ranked.
  - apply ranked in Hab as [_ Hab]. lia.
Qed.

Lemma ranked_acyclic a : ¬ tc (prereq tasks) a a.
Proof using ranked. intros H%ranked_tc. lia. Qed.

Lemma ranked_wf : well_founded (flip (prereq tasks)).
Proof using ranked.
  apply (wf_projected (<) rank); [|apply lt_wf].
  intros b a Hab. by apply ranked.
Qed.

Lemma sequence_not_failed fuel : ∀ nest names results e,
  (∀ n, n ∈ names → is_Some (tasks !! n)) →
  (∀ n x, n ∈ names → x ∈ nest → rank n < rank x) →
  sequence fuel tasks nest names results ≠ Some (Failed e).
Proof using ranked.
  induction fuel as [|fuel IHf]; [done|].
  intros nest names. induction names as [|name rest IHn];
    intros results e Hdecl Hnest.
  - by rewrite sequence_nil.
  - rewrite sequence_cons.
    assert (Hrest : sequence (S fuel) tasks nest rest results ≠ Some (Failed e)
                    ∧ ∀ r, sequence (S fuel) tasks nest rest r ≠ Some (Failed e)).
    { split; [|intros r]; apply IHn; intros; first [apply Hdecl|apply Hnest];
        by try right. }
    destruct Hrest as [Hrest1 Hrest2].
    case_bool_decide; [done|].
    destruct (Hdecl name) as [node Hnode]; [by left|]. rewrite Hnode.
    case_bool_decide as Hn.
    { assert (rank name < rank name) by (apply Hnest; [by left|done]). lia. }
    destruct (sequence fuel tasks (nest ++ [name]) (dep node) results)
      as [[r|e']|] eqn:Hrec; [done| |done].
    exfalso. eapply IHf; [| |exact Hrec].
    + intros n Hin. apply (ranked name n). by exists node.
    + intros n x Hin [Hx| ->%list_elem_of_singleton]%elem_of_app.
      * assert (rank n < rank name) by (apply (ranked name n); by exists node).
        assert (rank name < rank x) by (apply Hnest; [by left|done]). lia.
      * apply (ranked name n). by exists node.
Qed.

(** On such a table every request for declared tasks resolves. *)
Lemma resolve_ranked names :
  (∀ n, n ∈ names → is_Some (tasks !! n)) →
  ∃ out, resolve tasks names = Some (Done out).
Proof using ranked.
  intros Hdecl. destruct (resolve_total tasks names) as [[out|e] H]; [eauto|].
  exfalso. eapply sequence_not_failed; [| |exact H]; [done|].
  intros n x _ Hx. by apply elem_of_nil in Hx.
Qed.
End ranked.

Lemma resolve_eq tasks names :
  resolve tasks names = sequence (S (size tasks)) tasks [] names [].
Proof. reflexivity. Qed.

(** A single requested task is the last of its resolved sequence. *)
Lemma resolve_last tasks name out :
  resolve tasks [name] = Some (Done out) → last out = Some name.
Proof.
  rewrite resolve_eq, sequence_cons.
  case_bool_decide as H; [by apply elem_of_nil in H|].
  destruct (tasks !! name) as [node|]; [|done].
  destruct (sequence _ _ _ _ _) as [[r|e]|]; [|done|done].
  rewrite sequence_nil. intros [= <-]. apply last_snoc.
Qed.

Lemma run_actions_all_ok ok seq :
  (∀ name, name ∈ seq → ok name = true) → run_actions ok seq = (seq, None).
Proof.
  induction seq as [|name rest IH]; intros Hok; [done|].
  simpl. rewrite Hok by (by left). rewrite IH; [done|].
  intros n Hn. apply Hok. by right.
Qed.

Lemma gulpfile_checked :
  map_Forall
    (λ a t, Forall (λ b, is_Some (gulpfile !! b) ∧ rank b < rank a) (dep t))
    gulpfile.
Proof. apply (bool_decide_unpack _). vm_compute. exact I. Qed.

Lemma gulpfile_ranked a b :
  prereq gulpfile a b → is_Some (gulpfile !! b) ∧ rank b < rank a.
Proof.
  intros (t & Ht & Hb). pose proof (gulpfile_checked a t Ht) as H.
  simpl in H. rewrite Forall_forall in H. by apply H.
Qed.

Lemma gulpfile_resolves names :
  (∀ n, n ∈ names → is_Some (gulpfile !! n)) →
  ∃ seq, resolve gulpfile names = Some (Done seq).
Proof. apply (resolve_ranked gulpfile rank gulpfile_ranked). Qed.

Example resolve_test :
  resolve gulpfile ["test"] =
    Some (Done ["clean"; "tslint"; "scripts"; "spec"; "coverage"; "jshint";
                "lint"; "test"]).
Proof. vm_compute. reflexivity. Qed.

Example resolve_doc :
  resolve gulpfile ["doc"] = Some (Done ["clean"; "typedoc"; "pages"; "doc"]).
Proof. vm_compute. reflexivity. Qed.

Example resolve_scripts_typedoc :
  resolve gulpfile ["scripts"; "typedoc"] =
    Some (Done ["clean"; "tslint"; "scripts"; "typedoc"]).
Proof. vm_compute. reflexivity. Qed.

Example resolve_undeclared :
  resolve gulpfile ["default"] = Some (Failed (UnknownTaskError "default")).
Proof. vm_compute. reflexivity. Qed.

(** A table with a cycle, to see the error the gulpfile never meets. *)
Example resolve_cycle :
  resolve (gulp_task "clean" ["test"] (Some clean) gulpfile) ["test"] =
    Some (Failed (CyclicDependencyError
                    ["test"; "coverage"; "spec"; "scripts"; "clean"; "test"])).
Proof. vm_compute. reflexivity. Qed.

(** C5: for the tasks declared in the gulpfile, a request for declared
    task names (one name is the list of one) resolves to a sequence that
    holds exactly the requested tasks and their transitive prerequisites,
    each once, every prerequisite before the task that names it; when
    every action succeeds, the actions run are that sequence in that
    order.  A task reached along two paths is therefore run once. *)
Theorem run_prerequisites_once_in_order (names : list string) (ok : string → bool) :
  (∀ n, n ∈ names → is_Some (gulpfile !! n)) →
  (∀ n, ok n = true) →
  ∃ seq, resolve gulpfile names = Some (Done seq)
    ∧ run_actions ok seq = (seq, None)
    ∧ NoDup seq
    ∧ (∀ x, x ∈ seq ↔ ∃ n, n ∈ names ∧ rtc (prereq gulpfile) n x)
    ∧ (∀ a b, a ∈ seq → prereq gulpfile a b → before b a seq).
Proof.
  intros Hdecl Hok. destruct (gulpfile_resolves names Hdecl) as [seq Hseq].
  exists seq. destruct (resolve_done _ _ _ Hseq) as (Hnd & Hin & Hcl).
  split_and!; [done| |done|done|].
  - apply run_actions_all_ok. intros; apply Hok.
  - intros a b Ha Hab. by eapply closed_elem.
Qed.

Lemma run_prerequisites_once_in_order_witness :
  (∀ n, n ∈ ["test"] → is_Some (gulpfile !! n))
  ∧ ∃ seq, resolve gulpfile ["test"] = Some (Done seq)
    ∧ run_actions (λ _, true) seq = (seq, None)
    ∧ NoDup seq
    ∧ (∀ x, x ∈ seq ↔ ∃ n, n ∈ ["test"] ∧ rtc (prereq gulpfile) n x)
    ∧ (∀ a b, a ∈ seq → prereq gulpfile a b → before b a seq).
Proof.
  assert (H : ∀ n, n ∈ ["test"] → is_Some (gulpfile !! n)).
  { intros n ->%list_elem_of_singleton. vm_compute. eauto. }
  split; [exact H|].
  exact (run_prerequisites_once_in_order ["test"] (λ _, true) H (λ _, eq_refl)).
Defined.

(** C10: the table declared in the gulpfile has no cycle: no task is
    among its own transitive prerequisites, every chain of prerequisites
    ends (the relation is well founded), every prerequisite named is
    declared, [clean], [tslint], [jshint] and [format] have none, and the
    resolution of declared names always yields a sequence, so never a
    [CyclicDependencyError]. *)
Theorem gulpfile_acyclic :
  (∀ a, ¬ tc (prereq gulpfile) a a)
  ∧ well_founded (flip (prereq gulpfile))
  ∧ (∀ a b, prereq gulpfile a b → is_Some (gulpfile !! b))
  ∧ Forall (λ leaf, dep <$> gulpfile !! leaf = Some [])
           ["clean"; "tslint"; "jshint"; "format"]
  ∧ (prereq gulpfile "test" "coverage" ∧ prereq gulpfile "coverage" "spec"
     ∧ prereq gulpfile "spec" "scripts" ∧ prereq gulpfile "scripts" "clean"
     ∧ prereq gulpfile "scripts" "tslint")
  ∧ (prereq gulpfile "doc" "pages" ∧ prereq gulpfile "pages" "typedoc"
     ∧ prereq gulpfile "typedoc" "clean")
  ∧ (∀ names, (∀ n, n ∈ names → is_Some (gulpfile !! n)) →
       (∃ seq, resolve gulpfile names = Some (Done seq))
       ∧ ∀ chain, resolve gulpfile names
                  ≠ Some (Failed (CyclicDependencyError chain))).
Proof.
  split_and!.
  - apply (ranked_acyclic gulpfile rank gulpfile_ranked).
  - apply (ranked_wf gulpfile rank gulpfile_ranked).
  - intros a b Hab. by apply gulpfile_ranked in Hab as [? _].
  - repeat constructor.
  - eexists; split; [vm_compute; reflexivity|]. set_solver.
  - eexists; split; [vm_compute; reflexivity|]. set_solver.
  - eexists; split; [vm_compute; reflexivity|]. set_solver.
  - eexists; split; [vm_compute; reflexivity|]. set_solver.
  - eexists; split; [vm_compute; reflexivity|]. set_solver.
  - eexists; split; [vm_compute; reflexivity|]. set_solver.
  - eexists; split; [vm_compute; reflexivity|]. set_solver.
  - eexists; split; [vm_compute; reflexivity|]. set_solver.
  - intros names Hdecl. destruct (gulpfile_resolves names Hdecl) as [seq Hseq].
    split; [eauto|]. intros chain. by rewrite Hseq.
Qed.

Lemma task_copy_settles :
  Settles task_copy
    (λ a, MkPiped [JStr "_build/src/**/*.js"; JStr "_build/src/**/*.d.ts"]
                  (JStr (cwd_of a))).
Proof.
  unfold task_copy.
  apply (Settles_bind _ _ _
           (λ sc a, MkPiped [sc; JStr "_build/src/**/*.d.ts"] (JStr (cwd_of a))));
    [apply globs_scripts_settles|intros sc].
  apply (Settles_bind _ _ _ (λ ty a, MkPiped [sc; ty] (JStr (cwd_of a))));
    [apply globs_types_settles|intros ty].
  apply (Settles_bind _ _ _ (λ di a, MkPiped [sc; ty] di));
    [apply globs_dist_settles|intros di].
  exact (Settles_ret _).
Qed.

Lemma task_pages_settles :
  Settles task_pages
    (λ a, MkPublished (JStr "doc/**/*")
            (from_option JStr JUndefined (penv_of a !! "PAGES_URL"))).
Proof.
  unfold task_pages.
  apply (Settles_bind _ _ _
           (λ docs a, MkPublished docs
                        (from_option JStr JUndefined (penv_of a !! "PAGES_URL"))));
    [apply globs_docs_settles|intros docs].
  apply (Settles_bind _ _ _ (λ url a, MkPublished docs url));
    [apply env_pagesUrl_settles|intros url].
  exact (Settles_ret _).
Qed.

(** *** A variable that is set stays as it is *)

Lemma val_get {S} (x : Slot S) fn s : slot_get x (val x fn s).2 = (val x fn s).1.
Proof. reflexivity. Qed.

Lemma val_hit {S} (x : Slot S) fn s :
  slot_get x s ≠ JUndefined → val x fn s = (slot_get x s, s).
Proof.
  intros H. unfold val.
  destruct (slot_get x s) eqn:E; simpl; rewrite ?E; done.
Qed.

Lemma val_again {S} (x : Slot S) fn s :
  (val x fn s).1 ≠ JUndefined → val x fn (val x fn s).2 = val x fn s.
Proof.
  intros H. rewrite val_hit; rewrite val_get; [|done].
  by destruct (val x fn s).
Qed.

(** Nor does a later change of [gulp.seq] touch it. *)
Lemma val_fixed k fn s seq' :
  (val (var k) fn s).1 ≠ JUndefined →
  val (var k) fn (set_seq seq' (val (var k) fn s).2)
  = ((val (var k) fn s).1, set_seq seq' (val (var k) fn s).2).
Proof.
  intros H. set (r := val (var k) fn s) in *.
  assert (Hr : slot_get (var k) (set_seq seq' r.2) = r.1)
    by exact (val_get (var k) fn s).
  rewrite val_hit; rewrite Hr; done.
Qed.

(** C2: a request for a declared task [name], made in a store where no
    accessor has run and whatever [gulp.seq] was, returns a store whose
    [gulp.seq] is the resolved sequence, whose last element is [name];
    nothing else of the store has changed and no accessor or action has
    run.  In that store, and in every store of the run after it,
    [env.task()] returns [name] and [env.isTest()] returns [true] exactly
    when [name] is ['test']; once evaluated, [env.isTest()] keeps its
    answer whatever [gulp.seq] becomes. *)
Theorem env_task_is_requested (name : string) (s0 : Store) :
  is_Some (gulpfile !! name) →
  closures s0 = ∅ →
  ∃ seq s1, start gulpfile [name] s0 = Some (Done s1)
    ∧ gulp_seq s1 = seq
    ∧ last seq = Some name
    ∧ closures s1 = ∅
    ∧ process_env s1 = process_env s0
    ∧ process_cwd s1 = process_cwd s0
    ∧ memo_ok s1
    ∧ (env_task s1).1 = JStr name
    ∧ (env_isTest s1).1 = JBool (bool_decide (name = "test"))
    ∧ ∀ s, memo_ok s → gulp_seq s = gulp_seq s1 →
        (env_task s).1 = JStr name
        ∧ (env_isTest s).1 = JBool (bool_decide (name = "test"))
        ∧ ∀ seq', env_isTest (set_seq seq' (env_isTest s).2)
                  = (JBool (bool_decide (name = "test")),
                     set_seq seq' (env_isTest s).2).
Proof.
  intros Hdecl Hs0.
  destruct (gulpfile_resolves [name]) as [seq Hseq].
  { by intros n ->%list_elem_of_singleton. }
  pose proof (resolve_last _ _ _ Hseq) as Hlast.
  assert (Hstart : ∃ s1, start gulpfile [name] s0 = Some (Done s1)
                         ∧ gulp_seq s1 = seq ∧ closures s1 = closures s0
                         ∧ process_env s1 = process_env s0
                         ∧ process_cwd s1 = process_cwd s0).
  { eexists. split; [by unfold start; rewrite Hseq|]. done. }
  destruct Hstart as (s1 & Hs1 & Hq & Hc & He & Hw).
  assert (Hok : memo_ok s1).
  { intros k v Hk. rewrite Hc, Hs0, lookup_empty in Hk. done. }
  assert (Hall : ∀ s, memo_ok s → gulp_seq s = gulp_seq s1 →
            (env_task s).1 = JStr name
            ∧ (env_isTest s).1 = JBool (bool_decide (name = "test"))
            ∧ ∀ seq', env_isTest (set_seq seq' (env_isTest s).2)
                      = (JBool (bool_decide (name = "test")),
                         set_seq seq' (env_isTest s).2)).
  { intros s Hs Hseq'. rewrite <- Hq, <- Hseq' in Hlast.
    assert (Hidx : js_index (seq_of (ambient s))
                     (Z.of_nat (length (seq_of (ambient s))) - 1) = JStr name).
    { unfold js_index, seq_of; simpl. rewrite last_lookup in Hlast.
      destruct (gulp_seq s) as [|x l]; [done|].
      rewrite bool_decide_eq_false_2 by (simpl length; lia).
      replace (Z.to_nat (Z.of_nat (length (x :: l)) - 1))
        with (pred (length (x :: l))) by lia.
      by rewrite Hlast. }
    destruct (env_task_settles s Hs) as (Ht & _ & _).
    destruct (env_isTest_settles s Hs) as (Hi & _ & _).
    rewrite Hidx in Ht, Hi.
    change (strict_eq_str (JStr name) "test")
      with (bool_decide (name = "test")) in Hi.
    split_and!; [done|done|].
    intros seq'. rewrite <- Hi. apply (val_fixed "env.isTest").
    fold env_isTest. by rewrite Hi. }
  exists seq, s1.
  destruct (Hall s1 Hok eq_refl) as (Ht & Hi & _).
  split_and!; try done. by rewrite Hc.
Qed.

Lemma env_task_is_requested_witness :
  is_Some (gulpfile !! "test")
  ∧ closures (loaded ["default"] ∅ "/home/tsutil") = ∅
  ∧ ∃ seq s1, start gulpfile ["test"] (loaded ["default"] ∅ "/home/tsutil")
                = Some (Done s1)
    ∧ gulp_seq s1 = seq
    ∧ last seq = Some "test"
    ∧ closures s1 = ∅
    ∧ process_env s1 = process_env (loaded ["default"] ∅ "/home/tsutil")
    ∧ process_cwd s1 = process_cwd (loaded ["default"] ∅ "/home/tsutil")
    ∧ memo_ok s1
    ∧ (env_task s1).1 = JStr "test"
    ∧ (env_isTest s1).1 = JBool (bool_decide ("test" = "test"))
    ∧ ∀ s, memo_ok s → gulp_seq s = gulp_seq s1 →
        (env_task s).1 = JStr "test"
        ∧ (env_isTest s).1 = JBool (bool_decide ("test" = "test"))
        ∧ ∀ seq', env_isTest (set_seq seq' (env_isTest s).2)
                  = (JBool (bool_decide ("test" = "test")),
                     set_seq seq' (env_isTest s).2).
Proof.
  assert (H : is_Some (gulpfile !! "test")) by (vm_compute; eauto).
  split; [exact H|]. split; [reflexivity|].
  exact (env_task_is_requested "test" (loaded ["default"] ∅ "/home/tsutil")
           H eq_refl).
Defined.

Example start_test_records_the_request :
  start gulpfile ["test"] (loaded ["default"] ∅ "/home/tsutil")
  = Some (Done (loaded ["clean"; "tslint"; "scripts"; "spec"; "coverage";
                        "jshint"; "lint"; "test"] ∅ "/home/tsutil")).
Proof. vm_compute. reflexivity. Qed.

Example env_isTest_lint :
  (env_isTest (loaded ["jshint"; "tslint"; "lint"] ∅ "/home/tsutil")).1
  = JBool false.
Proof. vm_compute. reflexivity. Qed.

(** C8: in every store of a run the glob accessors return
    ['{src,test}/**/*.ts'], ['_build/src/**/*.js'],
    ['_build/src/**/*.d.ts'] and ['doc/**/*'], [globs.dist()] returns the
    working directory of the process, and [copy] reads the compiled
    scripts and the declaration files and writes them to that directory.
    ([path.join] is that of a POSIX system.) *)
Theorem globs_resolve (s : Store) :
  memo_ok s →
  (globs_ts s).1 = JStr "{src,test}/**/*.ts"
  ∧ (globs_scripts s).1 = JStr "_build/src/**/*.js"
  ∧ (globs_types s).1 = JStr "_build/src/**/*.d.ts"
  ∧ (globs_docs s).1 = JStr "doc/**/*"
  ∧ (globs_dist s).1 = JStr (process_cwd s)
  ∧ (task_copy s).1
    = MkPiped [JStr "_build/src/**/*.js"; JStr "_build/src/**/*.d.ts"]
              (JStr (process_cwd s)).
Proof.
  intros Hs. split_and!.
  - by destruct (globs_ts_settles s Hs).
  - by destruct (globs_scripts_settles s Hs).
  - by destruct (globs_types_settles s Hs).
  - by destruct (globs_docs_settles s Hs).
  - by destruct (globs_dist_settles s Hs).
  - by destruct (task_copy_settles s Hs).
Qed.

Lemma globs_resolve_witness :
  memo_ok (loaded ["copy"] ∅ "/home/tsutil")
  ∧ (globs_ts (loaded ["copy"] ∅ "/home/tsutil")).1 = JStr "{src,test}/**/*.ts"
  ∧ (globs_dist (loaded ["copy"] ∅ "/home/tsutil")).1 = JStr "/home/tsutil".
Proof.
  pose proof (globs_resolve (loaded ["copy"] ∅ "/home/tsutil")
                (memo_ok_loaded _ _ _)) as (H1 & _ & _ & _ & H5 & _).
  split; [apply memo_ok_loaded|]. split; [exact H1|exact H5].
Defined.

(** C9: in every store of a run [env.isTravis()] returns [true] when
    [TRAVIS] is in the environment, whatever its value, and [false] when it
    is not; [env.pagesUrl()] returns the value of [PAGES_URL] ([undefined]
    when it is not set), and [pages] hands exactly that to the publishing
    step as [remoteUrl]. *)
Theorem env_reads_environment (s : Store) :
  memo_ok s →
  (env_isTravis s).1 = JBool (bool_decide (is_Some (process_env s !! "TRAVIS")))
  ∧ ((env_isTravis s).1 = JBool true ↔ is_Some (process_env s !! "TRAVIS"))
  ∧ (env_pagesUrl s).1
    = from_option JStr JUndefined (process_env s !! "PAGES_URL")
  ∧ (task_pages s).1
    = MkPublished (JStr "doc/**/*")
        (from_option JStr JUndefined (process_env s !! "PAGES_URL")).
Proof.
  intros Hs.
  destruct (env_isTravis_settles s Hs) as (Ht & _).
  destruct (env_pagesUrl_settles s Hs) as (Hp & _).
  destruct (task_pages_settles s Hs) as (Hg & _).
  split_and!; [done| |done|done].
  change (penv_of (ambient s)) with (process_env s) in Ht. rewrite Ht. split.
  - intros [= H]. by apply bool_decide_eq_true in H.
  - intros H. by rewrite bool_decide_eq_true_2.
Qed.

Lemma env_reads_environment_witness :
  memo_ok (loaded ["doc"] {[ "TRAVIS" := "false"; "PAGES_URL" := "git@host:doc" ]}
                  "/home/tsutil")
  ∧ (env_isTravis
       (loaded ["doc"] {[ "TRAVIS" := "false"; "PAGES_URL" := "git@host:doc" ]}
               "/home/tsutil")).1 = JBool true
  ∧ (env_pagesUrl
       (loaded ["doc"] {[ "TRAVIS" := "false"; "PAGES_URL" := "git@host:doc" ]}
               "/home/tsutil")).1 = JStr "git@host:doc".
Proof.
  pose proof (env_reads_environment
                (loaded ["doc"]
                   {[ "TRAVIS" := "false"; "PAGES_URL" := "git@host:doc" ]}
                   "/home/tsutil")
                (memo_ok_loaded _ _ _)) as (H1 & _ & H3 & _).
  split; [apply memo_ok_loaded|]. split; [exact H1|exact H3].
Defined.

Example env_isTravis_empty_value :
  (env_isTravis (loaded [] {[ "TRAVIS" := "" ]} "/home/tsutil")).1 = JBool true.
Proof. vm_compute. reflexivity. Qed.

Example env_isTravis_unset :
  (env_isTravis (loaded [] {[ "HOME" := "/root" ]} "/home/tsutil")).1 = JBool false.
Proof. vm_compute. reflexivity. Qed.

Section scripts_facts.
Implicit Types (s : Store) (st : Scripts) (events : list Event).

Lemma emit_settles ev st :
  Settles (emit ev st)
    (λ a, match exit_code st with
          | Some _ => st
          | None =>
              match ev with
              | EvData file => on_data file st
              | EvError => on_error st
              | EvEnd =>
                  if strict_eq_str
                       (js_index (seq_of a) (Z.of_nat (length (seq_of a)) - 1))
                       "test" && hasError st
                  then MkScripts (hasError st) (piped st) (ended st) (Some 8%Z)
                  else MkScripts (hasError st) (piped st) true (exit_code st)
              end
          end).
Proof.
  unfold emit. destruct (exit_code st) eqn:Hx; [exact (Settles_ret _)|].
  destruct ev; [exact (Settles_ret _)..|].
  unfold on_end. eapply Settles_ext.
  - refine (Settles_bind env_isTest _ _
              (λ t _, if truthy t && hasError st
                      then MkScripts (hasError st) (piped st) (ended st) (Some 8%Z)
                      else MkScripts (hasError st) (piped st) true (exit_code st))
              env_isTest_settles _).
    intros t. exact (Settles_ret _).
  - intros a. simpl. by rewrite Hx.
Qed.

(** Before the end of the stream: no exit, whatever was emitted. *)
Lemma task_scripts_running events : ∀ st s,
  memo_ok s → EvEnd ∉ events → exit_code st = None → ended st = false →
  memo_ok (task_scripts events st s).2
  ∧ ambient (task_scripts events st s).2 = ambient s
  ∧ (task_scripts events st s).1
    = MkScripts (hasError st || bool_decide (EvError ∈ events))
                (piped st ++ files events) false None.
Proof.
  induction events as [|ev rest IH]; intros st s Hs Hend Hx He.
  - simpl. rewrite orb_false_r, app_nil_r. by destruct st; simplify_eq/=.
  - simpl. unfold mbind, js_bind, Js.bind.
    destruct (emit_settles ev st s Hs) as (Hv & Hok & Ha).
    destruct (emit ev st s) as [st' s'] eqn:Hemit. simpl in Hv, Hok, Ha.
    rewrite Hx in Hv.
    apply not_elem_of_cons in Hend as [Hev Hrest].
    destruct ev as [file| |]; [| |done]; subst st'.
    + unfold on_data in *. rewrite He in *.
      destruct (IH (MkScripts (hasError st) (piped st ++ [file]) false
                              (exit_code st)) s' Hok Hrest Hx eq_refl)
        as (H1 & H2 & H3).
      split_and!; [done|congruence|].
      assert (Hb : bool_decide (EvError ∈ EvData file :: rest)
                   = bool_decide (EvError ∈ rest)).
      { apply bool_decide_ext. rewrite elem_of_cons.
        split; [by intros [?|?]|by right]. }
      rewrite H3, Hb. simpl. by rewrite <- app_assoc.
    + destruct (IH (on_error st) s' Hok Hrest Hx He) as (H1 & H2 & H3).
      split_and!; [done|congruence|].
      assert (Hb : bool_decide (EvError ∈ EvError :: rest) = true)
        by (apply bool_decide_eq_true_2; by left).
      rewrite H3, Hb. simpl. by rewrite !orb_true_r.
Qed.

Lemma task_scripts_one ev st s :
  (task_scripts [ev] st s).1 = (emit ev st s).1.
Proof.
  cbn [task_scripts]. unfold mbind, js_bind, Js.bind.
  by destruct (emit ev st s).
Qed.

Lemma task_scripts_app events1 events2 st s :
  task_scripts (events1 ++ events2) st s
  = task_scripts events2 (task_scripts events1 st s).1
                         (task_scripts events1 st s).2.
Proof.
  revert st s. induction events1 as [|ev rest IH]; intros st s; [done|].
  simpl. unfold mbind, js_bind, Js.bind.
  destruct (emit ev st s) as [st' s']. apply IH.
Qed.
End scripts_facts.

(** C3: while the stream of compiled scripts has not ended the process
    does not exit, errors or not, and every file emitted, before or after
    an error, is piped to the build directory.  When the stream ends, the
    process exits with code 8 if the run was asked for ['test'] and an
    error was emitted; otherwise there is no exit, the destination is
    ended and the task has nothing to report, errors or not. *)
Theorem scripts_exit_8_at_end (s : Store) (events : list Event) :
  memo_ok s →
  EvEnd ∉ events →
  (task_scripts events scripts_begin s).1
    = MkScripts (bool_decide (EvError ∈ events)) (files events) false None
  ∧ (task_scripts (events ++ [EvEnd]) scripts_begin s).1
    = (if test_mode s && bool_decide (EvError ∈ events)
       then MkScripts true (files events) false (Some 8%Z)
       else MkScripts (bool_decide (EvError ∈ events)) (files events) true None)
  ∧ (test_mode s = true ↔ last (gulp_seq s) = Some "test").
Proof.
  intros Hs Hend.
  destruct (task_scripts_running events scripts_begin s Hs Hend eq_refl eq_refl)
    as (Hok & Ha & Hv).
  cbn [scripts_begin hasError piped ended orb app] in Hv.
  split_and!; [done| |].
  - rewrite task_scripts_app, task_scripts_one, Hv.
    destruct (emit_settles EvEnd
                (MkScripts (bool_decide (EvError ∈ events)) (files events)
                           false None) _ Hok) as (Hv' & _ & _).
    cbn [exit_code hasError piped ended] in Hv'. rewrite Ha in Hv'.
    rewrite Hv'. unfold test_mode, seq_of, ambient. cbn [fst snd].
    by destruct (strict_eq_str _ _), (bool_decide (EvError ∈ events)).
  - unfold test_mode, js_index. rewrite last_lookup.
    destruct (gulp_seq s) as [|x l]; [done|].
    rewrite bool_decide_eq_false_2 by (simpl length; lia).
    replace (Z.to_nat (Z.of_nat (length (x :: l)) - 1))
      with (pred (length (x :: l))) by lia.
    destruct ((x :: l) !! pred (length (x :: l))) as [y|]; simpl.
    + rewrite bool_decide_eq_true. split; congruence.
    + done.
Qed.

Lemma scripts_exit_8_at_end_witness :
  memo_ok (loaded ["clean"; "tslint"; "scripts"; "spec"; "coverage"; "jshint";
                   "lint"; "test"] ∅ "/home/tsutil")
  ∧ (EvEnd ∉ [EvData "src/a.js"; EvError; EvData "src/b.js"])
  ∧ (task_scripts ([EvData "src/a.js"; EvError; EvData "src/b.js"] ++ [EvEnd])
       scripts_begin
       (loaded ["clean"; "tslint"; "scripts"; "spec"; "coverage"; "jshint";
                "lint"; "test"] ∅ "/home/tsutil")).1
    = MkScripts true ["src/a.js"; "src/b.js"] false (Some 8%Z).
Proof.
  assert (H : EvEnd ∉ [EvData "src/a.js"; EvError; EvData "src/b.js"]).
  { intros H. by repeat (apply elem_of_cons in H as [?|H]; [done|]);
      apply elem_of_nil in H. }
  split; [apply memo_ok_loaded|]. split; [exact H|].
  exact (proj1 (proj2 (scripts_exit_8_at_end _ _ (memo_ok_loaded _ _ _) H))).
Defined.

Example scripts_error_outside_test :
  (task_scripts [EvData "src/a.js"; EvError; EvData "src/b.js"; EvEnd]
     scripts_begin (loaded ["clean"; "tslint"; "scripts"] ∅ "/home/tsutil")).1
  = MkScripts true ["src/a.js"; "src/b.js"] true None.
Proof. vm_compute. reflexivity. Qed.

Section spec_facts.
Implicit Types (coverage : list (string * JsVal)) (key : string)
  (test : string → option bool).

Lemma filter_keys_total test keys :
  (∀ key, key ∈ keys → is_Some (test key)) →
  filter_keys test keys = Some (filter (λ key, test key = Some true) keys).
Proof.
  induction keys as [|key rest IH]; intros Hall; [done|].
  simpl. destruct (Hall key) as [b Hb]; [by left|]. rewrite Hb.
  rewrite IH by (intros k Hk; apply Hall; by right).
  rewrite filter_cons. rewrite Hb.
  destruct b; by case_decide.
Qed.

Lemma filter_keys_ext test1 test2 keys :
  (∀ key, key ∈ keys → test1 key = test2 key) →
  filter_keys test1 keys = filter_keys test2 keys.
Proof.
  induction keys as [|key rest IH]; intros Hext; [done|].
  simpl. rewrite (Hext key) by (by left).
  by rewrite IH by (intros k Hk; apply Hext; by right).
Qed.

Lemma filter_keys_app test keys1 keys2 :
  filter_keys test (keys1 ++ keys2) =
    match filter_keys test keys1, filter_keys test keys2 with
    | Some l1, Some l2 => Some (l1 ++ l2)
    | _, _ => None
    end.
Proof.
  induction keys1 as [|key rest IH]; simpl.
  - by destruct (filter_keys test keys2).
  - destruct (test key) as [b|]; [|done]. rewrite IH.
    destruct (filter_keys test rest), (filter_keys test keys2); try done.
    by destruct b.
Qed.

Lemma assoc_elem_of (l : list (string * JsVal)) key v :
  NoDup (l.*1) → assoc key l = Some v ↔ (key, v) ∈ l.
Proof.
  induction l as [|[k v'] l IH]; simpl.
  - intros _. split; [done|]. by intros ?%elem_of_nil.
  - intros [Hk Hnd]%NoDup_cons. rewrite elem_of_cons. case_bool_decide as Hkey.
    + subst k. split; [intros [= ->]; by left|].
      intros [[= ->]|Hin]; [done|].
      exfalso. apply Hk. apply list_elem_of_fmap. by exists (key, v).
    + rewrite IH by done. split; [by right|]. intros [[= -> ->]|?]; done.
Qed.

Lemma assoc_app_l (l more : list (string * JsVal)) key :
  key ∈ l.*1 → assoc key (l ++ more) = assoc key l.
Proof.
  induction l as [|[k v] l IH]; simpl.
  - by intros ?%elem_of_nil.
  - intros [->|Hin]%elem_of_cons.
    + by rewrite bool_decide_eq_true_2.
    + case_bool_decide; [done|]. by apply IH.
Qed.

Lemma assoc_app_r (l more : list (string * JsVal)) key :
  key ∉ l.*1 → assoc key (l ++ more) = assoc key more.
Proof.
  induction l as [|[k v] l IH]; simpl; [done|].
  intros [Hne Hin]%not_elem_of_cons.
  rewrite bool_decide_eq_false_2 by done. by apply IH.
Qed.

(** What the listener does on a summary whose values are all objects or
    primitive values other than [undefined] and [null]: the names it
    reports are those of the entries whose [pct] is not a number equal to
    100, an entry without [pct] among them. *)
Lemma task_spec_reports coverage :
  NoDup (Object_keys coverage) →
  (∀ key entry, (key, entry) ∈ coverage → is_Some (get_pct entry)) →
  ∃ names, incomplete coverage = Some names
    ∧ (∀ key, key ∈ names
         ↔ ∃ entry p, (key, entry) ∈ coverage ∧ get_pct entry = Some p
                      ∧ strict_ne_100 p = true)
    ∧ task_spec coverage
      = Some (if 0 <? length names
              then Some (Error ("Incomplete coverage for " +:+ join ", " names))
              else None).
Proof.
  intros Hnd Hobj.
  assert (Hmem : ∀ key, key ∈ Object_keys coverage →
                   ∃ entry, (key, entry) ∈ coverage ∧ member key coverage = entry).
  { intros key Hkey. apply list_elem_of_fmap in Hkey as ([k entry] & -> & Hin).
    exists entry. split; [done|]. unfold member. cbn [fst].
    by rewrite (proj2 (assoc_elem_of coverage k entry Hnd) Hin). }
  assert (Hinc : incomplete coverage
                 = Some (filter (λ key, below coverage key = Some true)
                           (Object_keys coverage))).
  { apply filter_keys_total. intros key Hkey.
    destruct (Hmem key Hkey) as (entry & Hin & Hm). unfold below. rewrite Hm.
    destruct (Hobj key entry Hin) as [p Hp]. rewrite Hp. by eexists. }
  eexists. split; [exact Hinc|]. split.
  - intros key. rewrite list_elem_of_filter. unfold below. split.
    + intros [Hb Hkey]. destruct (Hmem key Hkey) as (entry & Hin & Hm).
      rewrite Hm in Hb. destruct (get_pct entry) as [p|] eqn:Hp; [|done].
      exists entry, p. split_and!; [done|done|]. by injection Hb.
    + intros (entry & p & Hin & Hp & Hne).
      assert (Hkey : key ∈ Object_keys coverage).
      { apply list_elem_of_fmap. by exists (key, entry). }
      split; [|done]. destruct (Hmem key Hkey) as (entry' & Hin' & Hm).
      assert (entry' = entry) as ->.
      { apply (assoc_elem_of coverage key) in Hin, Hin'; [|done..]. congruence. }
      rewrite Hm, Hp. simpl. by rewrite Hne.
  - unfold task_spec. by rewrite Hinc.
Qed.
End spec_facts.

(** C4: with a summary as istanbul 0.4 makes it and every metric covered
    in full, the callback of [spec] still gets an error.  Every [pct] of
    the summary is 100; [linesCovered] has no [pct], [undefined !== 100]
    is true, so it is reported as incomplete coverage, where the callback
    should have got [null]. *)
Theorem spec_reports_entry_without_pct :
  task_spec summary_in_full
    = Some (Some (Error "Incomplete coverage for linesCovered"))
  ∧ incomplete summary_in_full = Some ["linesCovered"]
  ∧ Forall (λ e, ∀ x, get_pct e.2 = Some (JNum x) → PrimFloat.eqb x 100%float = true)
           summary_in_full
  ∧ get_pct (member "linesCovered" summary_in_full) = Some JUndefined
  ∧ task_spec (take 4 summary_in_full) = Some None.
Proof.
  split_and!; [by vm_compute|by vm_compute| |by vm_compute|by vm_compute].
  repeat apply Forall_cons_2; [..|apply Forall_nil_2]; cbn [snd];
    intros x [= <-]; reflexivity.
Qed.

Example task_spec_below_100 :
  task_spec [("lines", JObj [("pct", JNum 100%float)]);
             ("statements", JObj [("pct", JNum 97.5%float)]);
             ("functions", JObj [("pct", JNum 100%float)]);
             ("branches", JObj [("pct", JNum 50%float)])]
  = Some (Some (Error "Incomplete coverage for statements, branches")).
Proof. vm_compute. reflexivity. Qed.

Example task_spec_throws_on_null :
  task_spec [("lines", JObj [("pct", JNum 100%float)]); ("statements", JNull)]
  = None.
Proof. vm_compute. reflexivity. Qed.

Section clean_facts.
Implicit Types (fs : gmap string string) (path dir : string).

Lemma del_lookup patterns fs path :
  del patterns fs !! path =
    if existsb (λ dir, under dir path) patterns then None else fs !! path.
Proof.
  unfold del. destruct (existsb _ patterns) eqn:Hex.
  - apply map_lookup_filter_None. right. intros x _. simpl. by rewrite Hex.
  - destruct (fs !! path) as [x|] eqn:Hp.
    + apply map_lookup_filter_Some. by split.
    + apply map_lookup_filter_None. by left.
Qed.

Lemma del_idempotent patterns fs : del patterns (del patterns fs) = del patterns fs.
Proof.
  apply map_eq. intros path. rewrite !del_lookup.
  by destruct (existsb _ patterns).
Qed.

Lemma gulp_dest_lookup dir outputs : ∀ fs path content,
  gulp_dest dir outputs fs !! path = Some content →
  fs !! path = Some content
  ∨ ∃ rel, (rel, content) ∈ outputs ∧ path = path_join [dir; rel].
Proof.
  unfold gulp_dest.
  induction outputs as [|[rel c] outputs IH]; intros fs path content H;
    [by left|].
  simpl in H. apply IH in H as [H|(rel' & Hin & ->)].
  - destruct (decide (path_join [dir; rel] = path)) as [<-|Hne].
    + rewrite lookup_insert_eq in H. injection H as ->.
      right. exists rel. split; [by left|done].
    + rewrite lookup_insert_ne in H by done. by left.
  - right. exists rel'. split; [by right|done].
Qed.

Lemma gulp_dest_keeps dir outputs : ∀ fs path,
  (∀ out, out ∈ outputs → path_join [dir; out.1] ≠ path) →
  gulp_dest dir outputs fs !! path = fs !! path.
Proof.
  unfold gulp_dest.
  induction outputs as [|out outputs IH]; intros fs path Hne; [done|].
  simpl. rewrite IH by (intros o Ho; apply Hne; by right).
  apply lookup_insert_ne. apply Hne. by left.
Qed.

(** The last output written at a path is what is found there. *)
Lemma gulp_dest_written dir before rel content after fs :
  (∀ out, out ∈ after → path_join [dir; out.1] ≠ path_join [dir; rel]) →
  gulp_dest dir (before ++ (rel, content) :: after) fs
    !! path_join [dir; rel] = Some content.
Proof.
  intros Hne. unfold gulp_dest. rewrite foldl_app. simpl.
  set (fs' := foldl _ fs before).
  change (gulp_dest dir after (<[path_join [dir; rel] := content]> fs')
            !! path_join [dir; rel] = Some content).
  rewrite gulp_dest_keeps by done. apply lookup_insert_eq.
Qed.

Lemma task_clean_patterns_settles :
  Settles task_clean_patterns (λ _, [JStr "_build"; JStr "doc"]).
Proof.
  unfold task_clean_patterns.
  refine (Settles_bind globs_build _ _ (λ b _, [b; JStr "doc"])
            globs_build_settles _). intros b.
  refine (Settles_bind globs_doc _ _ (λ d _, [b; d]) globs_doc_settles _).
  intros d. exact (Settles_ret _).
Qed.

Lemma task_clean_settles fs :
  Settles (task_clean fs) (λ _, del ["_build"; "doc"] fs).
Proof.
  unfold task_clean.
  pose (e := λ (p : list JsVal) (_ : Ambient), del (str <$> p) fs).
  refine (Settles_bind task_clean_patterns _ _ e task_clean_patterns_settles _).
  intros p. exact (Settles_ret _).
Qed.

Lemma task_scripts_writes_settles compiled fs :
  Settles (task_scripts_writes compiled fs) (λ _, gulp_dest "_build" compiled fs).
Proof.
  unfold task_scripts_writes.
  refine (Settles_bind globs_build _ _ (λ b _, gulp_dest (str b) compiled fs)
            globs_build_settles _).
  intros b. exact (Settles_ret _).
Qed.
End clean_facts.

(** C7: [clean] hands [del] the build directory ['_build'] and the
    documentation directory ['doc'] and nothing else.  After it no file
    is left in or below either, every other file is as it was, and a
    second [clean] changes nothing.  When [scripts] then writes the
    compiler's output to the build directory, every file in or below
    ['_build'] is one of those just written, with the content just
    written; and every output of the compiler is there, at its path
    below ['_build'], with its content, unless a later output was
    written at the same path. *)
Theorem clean_then_scripts (s : Store) (fs : gmap string string)
    (compiled : list (string * string)) :
  memo_ok s →
  (task_clean_patterns s).1 = [JStr "_build"; JStr "doc"]
  ∧ (∀ path, under "_build" path || under "doc" path = true →
             (task_clean fs s).1 !! path = None)
  ∧ (∀ path, under "_build" path || under "doc" path = false →
             (task_clean fs s).1 !! path = fs !! path)
  ∧ (task_clean (task_clean fs s).1 (task_clean fs s).2).1 = (task_clean fs s).1
  ∧ (∀ path content,
       under "_build" path = true →
       (task_scripts_writes compiled (task_clean fs s).1 (task_clean fs s).2).1
         !! path = Some content →
       ∃ rel, (rel, content) ∈ compiled ∧ path = path_join ["_build"; rel])
  ∧ (∀ before rel content after,
       compiled = before ++ (rel, content) :: after →
       (∀ out, out ∈ after →
               path_join ["_build"; out.1] ≠ path_join ["_build"; rel]) →
       (task_scripts_writes compiled (task_clean fs s).1 (task_clean fs s).2).1
         !! path_join ["_build"; rel] = Some content)
  ∧ (∀ path,
       (∀ out, out ∈ compiled → path_join ["_build"; out.1] ≠ path) →
       (task_scripts_writes compiled (task_clean fs s).1 (task_clean fs s).2).1
         !! path = (task_clean fs s).1 !! path).
Proof.
  intros Hs.
  destruct (task_clean_patterns_settles s Hs) as (Hp & _ & _).
  destruct (task_clean_settles fs s Hs) as (Hc & Hok & _).
  destruct (task_clean_settles (task_clean fs s).1 _ Hok) as (Hc2 & _ & _).
  destruct (task_scripts_writes_settles compiled (task_clean fs s).1 _ Hok)
    as (Hw & _ & _).
  split_and!; [done| | | | | |].
  - intros path Hu. rewrite Hc, del_lookup. simpl.
    rewrite orb_false_r. by rewrite Hu.
  - intros path Hu. rewrite Hc, del_lookup. simpl.
    rewrite orb_false_r. by rewrite Hu.
  - rewrite Hc2, Hc. apply del_idempotent.
  - intros path content Hu Hl. rewrite Hw in Hl.
    apply gulp_dest_lookup in Hl as [Hl|Hl]; [|done].
    rewrite Hc, del_lookup in Hl. simpl in Hl. by rewrite Hu in Hl.
  - intros before rel content after Hcomp Hne. rewrite Hw, Hcomp.
    by apply gulp_dest_written.
  - intros path Hne. rewrite Hw. by apply gulp_dest_keeps.
Qed.

Lemma clean_then_scripts_witness :
  memo_ok (loaded ["clean"; "tslint"; "scripts"] ∅ "/home/tsutil")
  ∧ (task_clean {[ "_build/src/old.js" := "stale"; "doc/index.html" := "stale";
                   "src/a.ts" := "source"; "_builder" := "kept" ]}
       (loaded ["clean"; "tslint"; "scripts"] ∅ "/home/tsutil")).1
    !! "_build/src/old.js" = None
  ∧ (task_scripts_writes [("src/a.js", "compiled"); ("src/a.d.ts", "declared")]
       (task_clean {[ "_build/src/old.js" := "stale"; "doc/index.html" := "stale";
                      "src/a.ts" := "source"; "_builder" := "kept" ]}
          (loaded ["clean"; "tslint"; "scripts"] ∅ "/home/tsutil")).1
       (task_clean {[ "_build/src/old.js" := "stale"; "doc/index.html" := "stale";
                      "src/a.ts" := "source"; "_builder" := "kept" ]}
          (loaded ["clean"; "tslint"; "scripts"] ∅ "/home/tsutil")).2).1
    !! path_join ["_build"; "src/a.js"] = Some "compiled".
Proof.
  split; [apply memo_ok_loaded|]. split.
  - exact (proj1 (proj2 (clean_then_scripts _ _
                           [("src/a.js", "compiled"); ("src/a.d.ts", "declared")]
                           (memo_ok_loaded _ _ _)))
             "_build/src/old.js" eq_refl).
  - refine (proj1 (proj2 (proj2 (proj2 (proj2 (proj2 (clean_then_scripts _ _
                           [("src/a.js", "compiled"); ("src/a.d.ts", "declared")]
                           (memo_ok_loaded _ _ _)))))))
             [] "src/a.js" "compiled" [("src/a.d.ts", "declared")] eq_refl _).
    intros out ->%list_elem_of_singleton. vm_compute. discriminate.
Defined.

Example clean_then_scripts_example :
  (task_scripts_writes [("src/a.js", "compiled"); ("src/a.d.ts", "declared")]
     (task_clean {[ "_build/src/old.js" := "stale"; "doc/index.html" := "stale";
                    "src/a.ts" := "source"; "_builder" := "kept" ]}
        (loaded ["clean"; "tslint"; "scripts"] ∅ "/home/tsutil")).1
     (task_clean {[ "_build/src/old.js" := "stale"; "doc/index.html" := "stale";
                    "src/a.ts" := "source"; "_builder" := "kept" ]}
        (loaded ["clean"; "tslint"; "scripts"] ∅ "/home/tsutil")).2).1
  = {[ "src/a.ts" := "source"; "_builder" := "kept";
       "_build/src/a.js" := "compiled"; "_build/src/a.d.ts" := "declared" ]}.
Proof. vm_compute. reflexivity. Qed.

Example task_clean_example :
  (task_clean {[ "_build/src/old.js" := "stale"; "doc/index.html" := "stale";
                 "src/a.ts" := "source"; "_builder" := "kept" ]}
     (loaded ["clean"] ∅ "/home/tsutil")).1
  = {[ "src/a.ts" := "source"; "_builder" := "kept" ]}.
Proof. vm_compute. reflexivity. Qed.

(** ** More properties of [val] *)

Section val_reruns.
Context {W : Type}.
Implicit Types (f : W → JsVal * W) (w : W) (c : Cell W).

Lemma reruns_S f j w : reruns f (S j) w = (f (reruns f j w)).2.
Proof. revert w. induction j as [|j IH]; intros w; [done|]. apply (IH (f w).2). Qed.

Lemma repeat_app {S A} (m : Js.t S A) a b s :
  Js.repeat (a + b) m s =
    ((Js.repeat a m s).1 ++ (Js.repeat b m (Js.repeat a m s).2).1,
     (Js.repeat b m (Js.repeat a m s).2).2).
Proof.
  revert s. induction a as [|a IH]; intros s; simpl.
  - by destruct (Js.repeat b m s).
  - unfold Js.bind. destruct (m s) as [x s1]. rewrite IH.
    by destruct (Js.repeat a m s1).
Qed.

Lemma repeat_accessor_unset f n : ∀ c,
  value c = JUndefined →
  (∀ j, j < n → (f (reruns f j (world c))).1 = JUndefined) →
  Js.repeat n (accessor f) c
  = (replicate n JUndefined,
     MkCell JUndefined (reruns f n (world c)) (n + invoked c)).
Proof.
  induction n as [|n IH]; intros c Hc Hu.
  - simpl. by destruct c; simplify_eq/=.
  - simpl. unfold Js.bind. rewrite accessor_unset by done.
    pose proof (Hu 0 ltac:(lia)) as H0. simpl in H0. rewrite H0.
    rewrite IH; simpl; [|done|].
    + by rewrite Nat.add_succ_r.
    + intros j Hj. apply (Hu (S j)). lia.
Qed.
End val_reruns.

(** X1: as long as the constructor returns [undefined], every call of the
    accessor runs it again: [n] calls that all get [undefined] are [n]
    invocations, nothing is cached, and the world has gone through all [n]
    runs. *)
Theorem val_reruns_while_undefined {W} (f : W → JsVal * W) (w : W) (n : nat) :
  (∀ j, j < n → (f (reruns f j w)).1 = JUndefined) →
  Js.repeat n (accessor f) (fresh w)
  = (replicate n JUndefined, MkCell JUndefined (reruns f n w) n).
Proof.
  intros Hu. rewrite repeat_accessor_unset by done. simpl.
  by rewrite Nat.add_0_r.
Qed.

Lemma val_reruns_while_undefined_witness :
  (∀ j, j < 3 → ((λ w : nat, (JUndefined, S w)) (reruns (λ w : nat, (JUndefined, S w)) j 0)).1
               = JUndefined)
  ∧ Js.repeat 3 (accessor (λ w : nat, (JUndefined, S w))) (fresh 0)
    = ([JUndefined; JUndefined; JUndefined], MkCell JUndefined 3 3).
Proof.
  assert (H : ∀ j, j < 3 →
                ((λ w : nat, (JUndefined, S w))
                   (reruns (λ w : nat, (JUndefined, S w)) j 0)).1 = JUndefined)
    by done.
  split; [exact H|].
  exact (val_reruns_while_undefined (λ w : nat, (JUndefined, S w)) 0 3 H).
Defined.

(** X2: the accessor settles on the first result that is not
    [undefined].  When the first [k] runs of the constructor return
    [undefined] and the next one returns [v], then [n > k] calls return
    [undefined] [k] times and [v] from then on, the constructor has been
    invoked [k + 1] times however large [n] is, and the world is as the
    run that returned [v] left it. *)
Theorem val_settles_on_first_defined {W} (f : W → JsVal * W) (w : W)
    (k n : nat) (v : JsVal) :
  (∀ j, j < k → (f (reruns f j w)).1 = JUndefined) →
  (f (reruns f k w)).1 = v →
  v ≠ JUndefined →
  k < n →
  Js.repeat n (accessor f) (fresh w)
  = (replicate k JUndefined ++ replicate (n - k) v,
     MkCell v (reruns f (S k) w) (S k)).
Proof.
  intros Hu Hv Hdef Hk.
  replace n with (k + S (n - S k)) at 1 by lia.
  rewrite repeat_app, (repeat_accessor_unset f k (fresh w)) by done.
  cbn [fst snd fresh world invoked]. rewrite Nat.add_0_r.
  simpl Js.repeat. unfold Js.bind.
  rewrite accessor_unset by done. cbn [world invoked].
  rewrite Hv, repeat_accessor_set by done. cbn [fst snd value].
  rewrite reruns_S. replace (n - k) with (S (n - S k)) by lia. done.
Qed.

Lemma val_settles_on_first_defined_witness :
  (∀ j, j < 1 → (late_constructor (reruns late_constructor j 0)).1 = JUndefined)
  ∧ (late_constructor (reruns late_constructor 1 0)).1 = JStr "ready"
  ∧ JStr "ready" ≠ JUndefined
  ∧ 1 < 4
  ∧ Js.repeat 4 (accessor late_constructor) (fresh 0)
    = ([JUndefined; JStr "ready"; JStr "ready"; JStr "ready"],
       MkCell (JStr "ready") 2 2).
Proof.
  assert (H : ∀ j, j < 1 →
                (late_constructor (reruns late_constructor j 0)).1 = JUndefined).
  { intros j Hj. by replace j with 0 by lia. }
  split; [exact H|]. split; [reflexivity|]. split; [discriminate|].
  split; [lia|].
  exact (val_settles_on_first_defined late_constructor 0 1 4 (JStr "ready")
           H eq_refl ltac:(discriminate) ltac:(lia)).
Defined.

(** ** What the accessors write *)

Section touches.
Implicit Types (s : Store) (k : string) (names : list string).

Lemma Touches_ret {A} (x : A) names : Touches (mret x) names.
Proof. by intros s. Qed.

Lemma Touches_gets {A} (f : Store → A) names : Touches (Js.gets f) names.
Proof. by intros s. Qed.

Lemma Touches_bind {A B} (m : Js.t Store A) (f : A → Js.t Store B) names :
  Touches m names → (∀ x, Touches (f x) names) → Touches (m ≫= f) names.
Proof.
  intros Hm Hf s. unfold mbind, js_bind, Js.bind.
  destruct (Hm s) as [Ha Hk]. destruct (m s) as [x s1]. cbn [fst snd] in *.
  destruct (Hf x s1) as [Ha' Hk']. split; [congruence|].
  intros k Hn. rewrite Hk' by done. by apply Hk.
Qed.

Lemma Touches_val k fn names :
  k ∈ names → Touches fn names → Touches (val (var k) fn) names.
Proof.
  intros Hin Hfn s. unfold val. cbv zeta.
  destruct (is_undefined (slot_get (var k) s)); [|done].
  destruct (Hfn s) as [Ha Hk]. destruct (fn s) as [v s1]. cbn [fst snd] in *.
  split; [done|]. intros k' Hn. simpl.
  rewrite lookup_insert_ne by (intros ->; done). by apply Hk.
Qed.
End touches.

Ltac touches :=
  repeat first
    [ apply Touches_ret
    | apply Touches_gets
    | apply Touches_val; [set_solver|]
    | apply Touches_bind; [|intros ?] ].

Lemma env_project_settles :
  Settles env_project
    (λ _, JObj [("declarationFiles", JBool true); ("module", JStr "commonjs");
                ("noExternalResolve", JBool true); ("noImplicitAny", JBool true);
                ("noLib", JBool false); ("removeComments", JBool true);
                ("sortOutput", JBool false); ("target", JStr "ES5")]).
Proof. unfold env_project. settles. Qed.

(** Every accessor settles: its answer is a function of the ambient. *)
Lemma accessors_settle :
  Forall (λ e, ∃ d, Settles e.1.2 d) accessors.
Proof.
  repeat apply Forall_cons_2; [..|apply Forall_nil_2]; cbn [fst snd]; eexists.
  - apply env_isTest_settles.
  - apply env_isTravis_settles.
  - apply env_name_settles.
  - apply env_pagesUrl_settles.
  - apply env_project_settles.
  - apply env_task_settles.
  - apply globs_build_settles.
  - apply globs_bundle_settles.
  - apply globs_coverage_settles.
  - apply globs_dist_settles.
  - apply globs_doc_settles.
  - apply globs_docs_settles.
  - apply globs_dts_settles.
  - apply globs_gulp_settles.
  - apply globs_lib_settles.
  - apply globs_scripts_settles.
  - apply globs_src_settles.
  - apply globs_test_settles.
  - apply globs_tests_settles.
  - apply globs_ts_settles.
  - apply globs_types_settles.
Qed.

Lemma call_all_keeps accs s :
  Forall (λ acc, ∃ d, Settles acc d) accs → memo_ok s →
  memo_ok (call_all accs s).2 ∧ ambient (call_all accs s).2 = ambient s.
Proof.
  intros Haccs. revert s. induction Haccs as [|acc accs [d Hd] _ IH]; intros s Hs.
  - done.
  - simpl. unfold mbind, js_bind, Js.bind.
    destruct (Hd s Hs) as (_ & Hok & Ha). destruct (acc s) as [v s1].
    cbn [fst snd] in *. destruct (IH s1 Hok) as [Hok' Ha']. split; [done|congruence].
Qed.

(** X3: in any store whatever, an accessor of [env] or [globs] leaves
    [gulp.seq], [process.env] and the working directory as they are, and
    writes no closure variable but its own and those of the accessors its
    constructor calls. *)
Theorem accessors_touch_their_own :
  Forall (λ e, Touches e.1.2 (e.1.1 :: e.2)) accessors.
Proof.
  repeat apply Forall_cons_2; [..|apply Forall_nil_2]; cbn [fst snd].
  - unfold env_isTest, env_task. touches.
  - unfold env_isTravis, process_env_get. touches.
  - unfold env_name. touches.
  - unfold env_pagesUrl, process_env_get. touches.
  - unfold env_project. touches.
  - unfold env_task. touches.
  - unfold globs_build. touches.
  - unfold globs_bundle. touches.
  - unfold globs_coverage. touches.
  - unfold globs_dist. touches.
  - unfold globs_doc. touches.
  - unfold globs_docs, globs_doc. touches.
  - unfold globs_dts, globs_ts, globs_src, globs_test. touches.
  - unfold globs_gulp. touches.
  - unfold globs_lib, globs_src. touches.
  - unfold globs_scripts, globs_build, globs_src. touches.
  - unfold globs_src. touches.
  - unfold globs_test. touches.
  - unfold globs_tests, globs_build, globs_test. touches.
  - unfold globs_ts, globs_src, globs_test. touches.
  - unfold globs_types, globs_build, globs_src. touches.
Qed.

(** X4: the answer of an accessor does not depend on which accessors
    were called before it: in a store of a run, after any accessors of
    [env] and [globs] have been called in any order, every accessor
    returns what it would have returned at once. *)
Theorem accessors_order_independent
    (called : list (string * Js.t Store JsVal * list string))
    (e : string * Js.t Store JsVal * list string) (s : Store) :
  memo_ok s →
  called ⊆ accessors →
  e ∈ accessors →
  (e.1.2 (call_all (called.*1.*2) s).2).1 = (e.1.2 s).1.
Proof.
  intros Hs Hcalled He.
  pose proof accessors_settle as Hall. rewrite Forall_forall in Hall.
  assert (Hc : Forall (λ acc, ∃ d, Settles acc d) (called.*1.*2)).
  { rewrite Forall_forall. intros acc Hacc.
    apply list_elem_of_fmap in Hacc as (x & -> & Hx).
    apply list_elem_of_fmap in Hx as (y & -> & Hy).
    apply Hall, Hcalled, Hy. }
  destruct (call_all_keeps _ s Hc Hs) as [Hok Ha].
  destruct (Hall e He) as [d Hd].
  destruct (Hd s Hs) as (Hv & _). destruct (Hd _ Hok) as (Hv' & _).
  by rewrite Hv, Hv', Ha.
Qed.

Lemma accessors_order_independent_witness :
  memo_ok (loaded ["tslint"; "lint"] ∅ "/home/tsutil")
  ∧ [("globs.ts", globs_ts, ["globs.src"; "globs.test"]);
     ("env.isTest", env_isTest, ["env.task"])] ⊆ accessors
  ∧ ("globs.dts", globs_dts, ["globs.ts"; "globs.src"; "globs.test"]) ∈ accessors
  ∧ (globs_dts (call_all [globs_ts; env_isTest]
                  (loaded ["tslint"; "lint"] ∅ "/home/tsutil")).2).1
    = (globs_dts (loaded ["tslint"; "lint"] ∅ "/home/tsutil")).1.
Proof.
  assert (H1 : [("globs.ts", globs_ts, ["globs.src"; "globs.test"]);
                ("env.isTest", env_isTest, ["env.task"])] ⊆ accessors).
  { intros x Hx. apply elem_of_cons in Hx as [->|Hx].
    - do 19 right. left.
    - apply list_elem_of_singleton in Hx as ->. left. }
  assert (H2 : ("globs.dts", globs_dts, ["globs.ts"; "globs.src"; "globs.test"])
               ∈ accessors) by (do 12 right; left).
  split; [apply memo_ok_loaded|]. split; [exact H1|]. split; [exact H2|].
  exact (accessors_order_independent _ _ _ (memo_ok_loaded _ _ _) H1 H2).
Defined.

(** ** [env.isTest] asked too early *)

Lemma test_mode_last s :
  test_mode s = true ↔ last (gulp_seq s) = Some "test".
Proof.
  unfold test_mode, js_index. rewrite last_lookup.
  destruct (gulp_seq s) as [|x l]; [done|].
  rewrite bool_decide_eq_false_2 by (simpl length; lia).
  replace (Z.to_nat (Z.of_nat (length (x :: l)) - 1))
    with (pred (length (x :: l))) by lia.
  destruct ((x :: l) !! pred (length (x :: l))) as [y|]; simpl; [|done].
  rewrite bool_decide_eq_true. split; congruence.
Qed.

Lemma js_index_last seq name :
  last seq = Some name →
  js_index seq (Z.of_nat (length seq) - 1) = JStr name.
Proof.
  intros Hlast. unfold js_index. rewrite last_lookup in Hlast.
  destruct seq as [|x l]; [done|].
  rewrite bool_decide_eq_false_2 by (simpl length; lia).
  replace (Z.to_nat (Z.of_nat (length (x :: l)) - 1))
    with (pred (length (x :: l))) by lia.
  by rewrite Hlast.
Qed.

(** X5: when [env.isTest()] is first called while [gulp.seq] is still
    empty, [env.task()] yields [undefined], which is not kept, but
    [env.isTest()] yields [false], which is: once a run for [name] has
    started, [env.task()] returns [name] and [env.isTest()] still returns
    [false], also for the run of ['test']. *)
Theorem env_isTest_asked_before_start (s : Store) (seq : list string)
    (name : string) :
  slot_get (var "env.isTest") s = JUndefined →
  slot_get (var "env.task") s = JUndefined →
  gulp_seq s = [] →
  last seq = Some name →
  (env_isTest s).1 = JBool false
  ∧ (env_isTest (set_seq seq (env_isTest s).2)).1 = JBool false
  ∧ (env_task (set_seq seq (env_isTest s).2)).1 = JStr name.
Proof.
  intros Hi Ht Hseq Hlast.
  assert (Htask : env_task s
                  = (JUndefined, slot_set (var "env.task") JUndefined s)).
  { unfold env_task, val. rewrite Ht. cbv zeta. cbn [is_undefined Js.gets].
    rewrite Hseq. simpl. by rewrite lookup_insert_eq. }
  assert (Htest : env_isTest s
                  = (JBool false,
                     slot_set (var "env.isTest") (JBool false)
                       (slot_set (var "env.task") JUndefined s))).
  { unfold env_isTest, val. rewrite Hi. cbv zeta. cbn [is_undefined].
    unfold mbind, js_bind, Js.bind. rewrite Htask. simpl.
    by rewrite lookup_insert_eq. }
  rewrite Htest. cbn [fst snd]. split_and!; [done| |].
  - unfold env_isTest. rewrite val_hit; simpl; by rewrite lookup_insert_eq.
  - unfold env_task, val. simpl.
    rewrite lookup_insert_ne by done. rewrite lookup_insert_eq. simpl.
    rewrite lookup_insert_eq. simpl. by apply js_index_last.
Qed.

Lemma env_isTest_asked_before_start_witness :
  slot_get (var "env.isTest") (loaded [] ∅ "/home/tsutil") = JUndefined
  ∧ slot_get (var "env.task") (loaded [] ∅ "/home/tsutil") = JUndefined
  ∧ gulp_seq (loaded [] ∅ "/home/tsutil") = []
  ∧ last ["jshint"; "tslint"; "lint"; "test"] = Some "test"
  ∧ (env_isTest (set_seq ["jshint"; "tslint"; "lint"; "test"]
                   (env_isTest (loaded [] ∅ "/home/tsutil")).2)).1 = JBool false
  ∧ (env_task (set_seq ["jshint"; "tslint"; "lint"; "test"]
                 (env_isTest (loaded [] ∅ "/home/tsutil")).2)).1 = JStr "test".
Proof.
  split; [reflexivity|]. split; [reflexivity|]. split; [reflexivity|].
  split; [reflexivity|].
  exact (proj2 (env_isTest_asked_before_start (loaded [] ∅ "/home/tsutil")
                  ["jshint"; "tslint"; "lint"; "test"] "test"
                  eq_refl eq_refl eq_refl eq_refl)).
Defined.

(** ** The linters and test mode *)

Lemma task_jshint_settles :
  Settles task_jshint
    (λ a, MkHinted (JStr "gulpfile.js")
            ("jshint-stylish"
             :: if strict_eq_str
                     (js_index (seq_of a) (Z.of_nat (length (seq_of a)) - 1))
                     "test"
                then ["fail"] else [])).
Proof.
  unfold task_jshint.
  refine (Settles_bind globs_gulp _ _
            (λ g a, MkHinted g
               ("jshint-stylish"
                :: if strict_eq_str
                        (js_index (seq_of a) (Z.of_nat (length (seq_of a)) - 1))
                        "test"
                   then ["fail"] else []))
            globs_gulp_settles _). intros g.
  refine (Settles_bind env_isTest _ _
            (λ t _, MkHinted g ("jshint-stylish" :: if truthy t then ["fail"] else []))
            env_isTest_settles _). intros t.
  exact (Settles_ret _).
Qed.

Lemma task_tslint_settles :
  Settles task_tslint
    (λ a, MkLinted (JStr "{src,test}/**/*.ts")
            (JBool (strict_eq_str
                      (js_index (seq_of a) (Z.of_nat (length (seq_of a)) - 1))
                      "test"))).
Proof.
  unfold task_tslint.
  refine (Settles_bind globs_ts _ _
            (λ g a, MkLinted g
               (JBool (strict_eq_str
                         (js_index (seq_of a) (Z.of_nat (length (seq_of a)) - 1))
                         "test")))
            globs_ts_settles _). intros g.
  refine (Settles_bind env_isTest _ _ (λ t _, MkLinted g t) env_isTest_settles _).
  intros t. exact (Settles_ret _).
Qed.

(** X6: the linters fail the run only in test mode.  In every store of a
    run, [jshint] reports through ['jshint-stylish'] and pipes to the
    ['fail'] reporter exactly when the last task of [gulp.seq] is
    ['test'], and [tslint] is told to emit errors exactly then; the two
    always agree. *)
Theorem linters_fail_only_in_test (s : Store) :
  memo_ok s →
  (task_jshint s).1
    = MkHinted (JStr "gulpfile.js")
        ("jshint-stylish" :: if test_mode s then ["fail"] else [])
  ∧ (task_tslint s).1 = MkLinted (JStr "{src,test}/**/*.ts") (JBool (test_mode s))
  ∧ ("fail" ∈ reporters (task_jshint s).1 ↔ last (gulp_seq s) = Some "test")
  ∧ (emitError (task_tslint s).1 = JBool true ↔ last (gulp_seq s) = Some "test").
Proof.
  intros Hs.
  destruct (task_jshint_settles s Hs) as (Hj & _).
  destruct (task_tslint_settles s Hs) as (Ht & _).
  change (strict_eq_str _ "test") with (test_mode s) in Hj, Ht.
  rewrite Hj, Ht. cbn [reporters emitError]. rewrite <- test_mode_last.
  split_and!; [done|done| |].
  - destruct (test_mode s); split; try done.
    + intros _. right. left.
    + intros [?|H]%elem_of_cons; [done|]. by apply elem_of_nil in H.
  - split; [by intros [= ->]|by intros ->].
Qed.

Lemma linters_fail_only_in_test_witness :
  memo_ok (loaded ["jshint"; "tslint"; "lint"] ∅ "/home/tsutil")
  ∧ (task_jshint (loaded ["jshint"; "tslint"; "lint"] ∅ "/home/tsutil")).1
    = MkHinted (JStr "gulpfile.js") ["jshint-stylish"].
Proof.
  split; [apply memo_ok_loaded|].
  exact (proj1 (linters_fail_only_in_test _ (memo_ok_loaded _ _ _))).
Defined.

(** ** [spec] and the environment *)

Section ignores_env.
Implicit Types (s : Store) (k : string).

Lemma Ignores_env_ret {A} (x : A) : Ignores_env (mret x).
Proof. by intros penv s. Qed.

Lemma Ignores_env_bind {A B} (m : Js.t Store A) (f : A → Js.t Store B) :
  Ignores_env m → (∀ x, Ignores_env (f x)) → Ignores_env (m ≫= f).
Proof.
  intros Hm Hf penv s. unfold mbind, js_bind, Js.bind.
  rewrite Hm. destruct (m s) as [x s1]. cbn [fst snd]. apply Hf.
Qed.

Lemma Ignores_env_val k fn : Ignores_env fn → Ignores_env (val (var k) fn).
Proof.
  intros Hfn penv s. unfold val. cbv zeta.
  change (slot_get (var k) (set_env penv s)) with (slot_get (var k) s).
  destruct (is_undefined (slot_get (var k) s)); [|done].
  rewrite Hfn. by destruct (fn s) as [v s1].
Qed.
End ignores_env.

Lemma globs_tests_ignores_env : Ignores_env globs_tests.
Proof.
  unfold globs_tests, globs_build, globs_test.
  repeat first [ apply Ignores_env_val | apply Ignores_env_ret
               | apply Ignores_env_bind; [|intros ?] ].
Qed.

Lemma globs_scripts_touches :
  Touches globs_scripts ["globs.scripts"; "globs.build"; "globs.src"].
Proof. unfold globs_scripts, globs_build, globs_src. touches. Qed.

Lemma globs_tests_touches :
  Touches globs_tests ["globs.tests"; "globs.build"; "globs.test"].
Proof. unfold globs_tests, globs_build, globs_test. touches. Qed.

Lemma env_isTravis_hit s v :
  slot_get (var "env.isTravis") s = v → v ≠ JUndefined → env_isTravis s = (v, s).
Proof. intros <- Hv. unfold env_isTravis. by apply val_hit. Qed.

(** X7: [spec] asks [env.isTravis()] when it starts and again when the
    instrumentation has finished.  The second answer, which picks the
    reporter of the tests, is the first one: ['spec'] when [TRAVIS] was
    set at the start of [spec] and ['nyan'] when it was not, whatever
    [process.env] has become in between. *)
Theorem spec_reporter_fixed_at_start (s : Store) (penv : gmap string string) :
  memo_ok s →
  (task_spec_begin s).1
    = (["text"; "text-summary"]
       ++ (if bool_decide (is_Some (process_env s !! "TRAVIS")) then [] else ["html"]),
       JStr "_build/src/**/*.js")
  ∧ (task_spec_finish (set_env penv (task_spec_begin s).2)).1
    = (JStr "_build/test/**/*.js",
       if bool_decide (is_Some (process_env s !! "TRAVIS")) then "spec" else "nyan").
Proof.
  intros Hs.
  destruct (env_isTravis_settles s Hs) as (Hv1 & Hok1 & Ha1).
  change (penv_of (ambient s)) with (process_env s) in Hv1.
  pose proof (val_get (var "env.isTravis")
                (t ← process_env_get "TRAVIS"; mret (JBool (negb (is_undefined t)))) s)
    as Hslot.
  fold env_isTravis in Hslot. rewrite Hv1 in Hslot.
  destruct (globs_scripts_settles _ Hok1) as (Hv2 & Hok2 & Ha2).
  destruct (globs_scripts_touches (env_isTravis s).2) as [_ Hk2].
  destruct (globs_tests_settles _ Hok2) as (Hv3 & _ & _).
  destruct (globs_tests_touches (globs_scripts (env_isTravis s).2).2) as [_ Hk3].
  assert (Hbegin : task_spec_begin s
                   = ((["text"; "text-summary"]
                       ++ (if bool_decide (is_Some (process_env s !! "TRAVIS"))
                           then [] else ["html"]),
                       JStr "_build/src/**/*.js"),
                      (globs_scripts (env_isTravis s).2).2)).
  { unfold task_spec_begin, mbind, js_bind, Js.bind.
    destruct (env_isTravis s) as [t s1]. cbn [fst snd] in *. subst t.
    destruct (globs_scripts s1) as [sc s2]. cbn [fst snd] in *. subst sc.
    cbn [truthy]. by destruct (bool_decide _). }
  rewrite Hbegin. cbn [fst snd]. split; [done|].
  set (s2 := (globs_scripts (env_isTravis s).2).2) in *.
  assert (Hslot3 : slot_get (var "env.isTravis") (set_env penv (globs_tests s2).2)
                   = JBool (bool_decide (is_Some (process_env s !! "TRAVIS")))).
  { rewrite <- Hslot.
    change (default JUndefined (closures (globs_tests s2).2 !! "env.isTravis")
            = default JUndefined (closures (env_isTravis s).2 !! "env.isTravis")).
    rewrite Hk3, Hk2; [done|..];
      intros H; repeat (apply elem_of_cons in H as [?|H]; [done|]);
      by apply elem_of_nil in H. }
  unfold task_spec_finish, mbind, js_bind, Js.bind.
  rewrite globs_tests_ignores_env, Hv3.
  rewrite (env_isTravis_hit _ _ Hslot3) by done.
  cbn [truthy mret js_ret Js.ret fst]. done.
Qed.

Lemma spec_reporter_fixed_at_start_witness :
  memo_ok (loaded ["spec"] {[ "TRAVIS" := "true" ]} "/home/tsutil")
  ∧ (task_spec_finish
       (set_env ∅ (task_spec_begin
                     (loaded ["spec"] {[ "TRAVIS" := "true" ]} "/home/tsutil")).2)).1
    = (JStr "_build/test/**/*.js", "spec").
Proof.
  split; [apply memo_ok_loaded|].
  exact (proj2 (spec_reporter_fixed_at_start
                  (loaded ["spec"] {[ "TRAVIS" := "true" ]} "/home/tsutil") ∅
                  (memo_ok_loaded _ _ _))).
Defined.

(** ** The listeners of [scripts] on any events *)

Section scripts_any.
Implicit Types (s : Store) (st : Scripts) (events : list Event) (test : bool).

Lemma emit_is_emit_with ev st s :
  memo_ok s →
  (emit ev st s).1 = emit_with (test_mode s) ev st
  ∧ memo_ok (emit ev st s).2 ∧ ambient (emit ev st s).2 = ambient s.
Proof.
  intros Hs. destruct (emit_settles ev st s Hs) as (Hv & Hok & Ha).
  split_and!; [|done|done]. rewrite Hv. unfold emit_with, test_mode.
  by destruct (exit_code st).
Qed.

Lemma task_scripts_is_scripts_with events : ∀ st s,
  memo_ok s → (task_scripts events st s).1 = scripts_with (test_mode s) events st.
Proof.
  induction events as [|ev rest IH]; intros st s Hs; [done|].
  simpl. unfold mbind, js_bind, Js.bind.
  destruct (emit_is_emit_with ev st s Hs) as (Hv & Hok & Ha).
  destruct (emit ev st s) as [st' s']. cbn [fst snd] in *. subst st'.
  rewrite IH by done. unfold test_mode.
  change (gulp_seq s') with (seq_of (ambient s')). by rewrite Ha.
Qed.

Lemma scripts_with_cons test ev rest st :
  scripts_with test (ev :: rest) st = scripts_with test rest (emit_with test ev st).
Proof. reflexivity. Qed.

Lemma scripts_with_exited test events st :
  is_Some (exit_code st) → scripts_with test events st = st.
Proof.
  intros [c Hc]. induction events as [|ev rest IH]; [done|].
  rewrite scripts_with_cons. unfold emit_with. by rewrite Hc.
Qed.

Lemma on_data_exit_code file st : exit_code (on_data file st) = exit_code st.
Proof. unfold on_data. by destruct (ended st). Qed.

Lemma on_data_hasError file st : hasError (on_data file st) = hasError st.
Proof. unfold on_data. by destruct (ended st). Qed.

(** The process exits with 8 or not at all. *)
Lemma scripts_with_exit_code test events : ∀ st,
  exit_code st = None →
  exit_code (scripts_with test events st) = None
  ∨ exit_code (scripts_with test events st) = Some 8%Z.
Proof.
  induction events as [|ev rest IH]; intros st Hx; [by left|].
  rewrite scripts_with_cons. unfold emit_with. rewrite Hx.
  destruct ev as [file| |]; [apply IH; by rewrite on_data_exit_code
                            |by apply IH|].
  destruct (test && hasError st); [|by apply IH].
  rewrite scripts_with_exited by (by eexists). by right.
Qed.

(** It exits exactly in test mode, at an end with an error before it. *)
Lemma scripts_with_exits test events : ∀ st,
  exit_code st = None →
  exit_code (scripts_with test events st) = Some 8%Z
  ↔ test = true
    ∧ ∃ pre post, events = pre ++ EvEnd :: post
                  ∧ (hasError st = true ∨ EvError ∈ pre).
Proof.
  induction events as [|ev rest IH]; intros st Hx.
  - simpl. rewrite Hx. split; [done|]. intros (_ & pre & post & H & _).
    by destruct pre.
  - rewrite scripts_with_cons. unfold emit_with. rewrite Hx.
    destruct ev as [file| |].
    + rewrite IH by (by rewrite on_data_exit_code).
      rewrite on_data_hasError. split.
      * intros (Ht & pre & post & -> & He). split; [done|].
        exists (EvData file :: pre), post. split; [done|].
        destruct He as [?|?]; [by left|right; by right].
      * intros (Ht & pre & post & Heq & He). split; [done|].
        destruct pre as [|x pre]; [done|]. injection Heq as <- ->.
        exists pre, post. split; [done|].
        destruct He as [?|[?|?]%elem_of_cons]; [by left|done|by right].
    + rewrite IH by done. cbn [hasError on_error]. split.
      * intros (Ht & pre & post & -> & _). split; [done|].
        exists (EvError :: pre), post. split; [done|]. right. by left.
      * intros (Ht & pre & post & Heq & _). split; [done|].
        destruct pre as [|x pre]; [done|]. injection Heq as <- ->.
        exists pre, post. split; [done|by left].
    + destruct (test && hasError st) eqn:Hexit.
      * rewrite scripts_with_exited by (by eexists). cbn [exit_code].
        apply andb_true_iff in Hexit as [-> Herr]. split; [|done].
        intros _. split; [done|]. exists [], rest. split; [done|by left].
      * rewrite IH by done. cbn [hasError]. split.
        -- intros (Ht & pre & post & -> & He). split; [done|].
           exists (EvEnd :: pre), post. split; [done|].
           destruct He as [?|?]; [by left|right; by right].
        -- intros (Ht & pre & post & Heq & He). split; [done|].
           destruct pre as [|x pre].
           ++ destruct He as [He|He]; [|by apply elem_of_nil in He].
              rewrite Ht, He in Hexit. done.
           ++ injection Heq as <- ->. exists pre, post. split; [done|].
              destruct He as [?|[?|?]%elem_of_cons]; [by left|done|by right].
Qed.

(** Once the destination is ended nothing more is piped. *)
Lemma scripts_with_after_end test events : ∀ st,
  ended st = true → piped (scripts_with test events st) = piped st.
Proof.
  induction events as [|ev rest IH]; intros st He; [done|].
  rewrite scripts_with_cons. unfold emit_with.
  destruct (exit_code st) eqn:Hx; [by apply IH|].
  destruct ev as [file| |].
  - unfold on_data. rewrite He. by apply IH.
  - by rewrite IH.
  - destruct (test && hasError st); by rewrite IH.
Qed.

(** What is piped is what was emitted before the first end. *)
Lemma scripts_with_piped test events : ∀ st,
  exit_code st = None → ended st = false →
  ∃ pre post, events = pre ++ post
    ∧ (EvEnd ∉ pre)
    ∧ (post = [] ∨ ∃ post', post = EvEnd :: post')
    ∧ piped (scripts_with test events st) = piped st ++ files pre
    ∧ (is_Some (exit_code (scripts_with test events st)) → post ≠ []).
Proof.
  induction events as [|ev rest IH]; intros st Hx He.
  - exists [], []. simpl. rewrite app_nil_r, Hx.
    split_and!; [done|by intros ?%elem_of_nil|by left|done|by intros [? ?]].
  - rewrite scripts_with_cons. unfold emit_with. rewrite Hx.
    destruct ev as [file| |].
    + unfold on_data. rewrite He, Hx.
      destruct (IH (MkScripts (hasError st) (piped st ++ [file]) false None)
                   eq_refl eq_refl)
        as (pre & post & -> & Hn & Hp & Hf & Hex).
      exists (EvData file :: pre), post. split_and!; [done| |done| |done].
      * by intros [?|?]%elem_of_cons.
      * rewrite Hf. simpl. by rewrite <- app_assoc.
    + destruct (IH (on_error st) Hx He) as (pre & post & -> & Hn & Hp & Hf & Hex).
      exists (EvError :: pre), post. split_and!; [done| |done|done|done].
      by intros [?|?]%elem_of_cons.
    + exists [], (EvEnd :: rest). simpl. rewrite app_nil_r.
      split_and!; [done|by intros ?%elem_of_nil|right; by eexists| |done].
      destruct (test && hasError st).
      * by rewrite scripts_with_exited by (by eexists).
      * by rewrite scripts_with_after_end.
Qed.
End scripts_any.

(** X8: whatever events the stream of compiled scripts emits, in
    whatever order, [scripts] exits the process with code 8 or not at all,
    and it exits exactly when the last task of [gulp.seq] is ['test'] and
    the stream emits an end after an error. *)
Theorem scripts_exits_only_with_8 (s : Store) (events : list Event) :
  memo_ok s →
  (exit_code (task_scripts events scripts_begin s).1 = None
   ∨ exit_code (task_scripts events scripts_begin s).1 = Some 8%Z)
  ∧ (exit_code (task_scripts events scripts_begin s).1 = Some 8%Z
     ↔ last (gulp_seq s) = Some "test"
       ∧ ∃ pre post, events = pre ++ EvEnd :: post ∧ EvError ∈ pre).
Proof.
  intros Hs. rewrite task_scripts_is_scripts_with by done. split.
  - by apply scripts_with_exit_code.
  - rewrite scripts_with_exits by done. rewrite test_mode_last.
    cbn [scripts_begin hasError]. split.
    + intros (Ht & pre & post & Heq & [?|He]); [done|]. eauto 6.
    + intros (Ht & pre & post & Heq & He). eauto 7.
Qed.

Lemma scripts_exits_only_with_8_witness :
  memo_ok (loaded ["clean"; "tslint"; "scripts"] ∅ "/home/tsutil")
  ∧ (exit_code
       (task_scripts [EvError; EvEnd; EvData "late.js"; EvEnd] scripts_begin
          (loaded ["clean"; "tslint"; "scripts"] ∅ "/home/tsutil")).1 = None
     ∨ exit_code
         (task_scripts [EvError; EvEnd; EvData "late.js"; EvEnd] scripts_begin
            (loaded ["clean"; "tslint"; "scripts"] ∅ "/home/tsutil")).1
       = Some 8%Z).
Proof.
  split; [apply memo_ok_loaded|].
  exact (proj1 (scripts_exits_only_with_8 _ _ (memo_ok_loaded _ _ _))).
Defined.

(** X9: whatever events the stream emits, the files [scripts] has piped
    to the build directory are, in order, exactly those emitted before the
    first end of the stream: none of them is dropped, errors or not, and
    nothing emitted after the first end is piped.  The process does not
    exit unless the stream has emitted an end. *)
Theorem scripts_pipes_until_end (s : Store) (events : list Event) :
  memo_ok s →
  ∃ pre post, events = pre ++ post
    ∧ (EvEnd ∉ pre)
    ∧ (post = [] ∨ ∃ post', post = EvEnd :: post')
    ∧ piped (task_scripts events scripts_begin s).1 = files pre
    ∧ (is_Some (exit_code (task_scripts events scripts_begin s).1) → post ≠ []).
Proof.
  intros Hs. rewrite task_scripts_is_scripts_with by done.
  destruct (scripts_with_piped (test_mode s) events scripts_begin eq_refl eq_refl)
    as (pre & post & Heq & Hn & Hp & Hf & Hex).
  exists pre, post. by split_and!.
Qed.

Lemma scripts_pipes_until_end_witness :
  memo_ok (loaded ["scripts"] ∅ "/home/tsutil")
  ∧ ∃ pre post,
      [EvData "a.js"; EvError; EvEnd; EvData "late.js"; EvEnd] = pre ++ post
    ∧ (EvEnd ∉ pre)
    ∧ (post = [] ∨ ∃ post', post = EvEnd :: post')
    ∧ piped (task_scripts [EvData "a.js"; EvError; EvEnd; EvData "late.js"; EvEnd]
               scripts_begin (loaded ["scripts"] ∅ "/home/tsutil")).1 = files pre
    ∧ (is_Some (exit_code
                  (task_scripts [EvData "a.js"; EvError; EvEnd; EvData "late.js"; EvEnd]
                     scripts_begin (loaded ["scripts"] ∅ "/home/tsutil")).1) →
       post ≠ []).
Proof.
  split; [apply memo_ok_loaded|].
  exact (scripts_pipes_until_end _ _ (memo_ok_loaded _ _ _)).
Defined.

Example scripts_nothing_piped_after_end :
  piped (task_scripts [EvError; EvEnd; EvData "late.js"; EvEnd] scripts_begin
           (loaded ["scripts"] ∅ "/home/tsutil")).1 = [].
Proof. vm_compute. reflexivity. Qed.

(** ** The summary of the coverage, entry by entry *)

(** X10: the report of [spec] is built entry by entry.  Take a summary
    and one more entry, under a name the summary does not have and that
    does not start with a digit, so that [Object.keys] lists it last.
    The listener throws if it throws on the summary or on the entry;
    otherwise the name of the entry is added at the end of the names
    reported when its [pct] is not a number equal to 100, and nothing
    changes when it is: then the callback gets what it got without the
    entry. *)
Theorem spec_report_grows_by_entry (coverage : list (string * JsVal))
    (key : string) (entry : JsVal) :
  key ∉ Object_keys coverage →
  starts_with_digit key = false →
  incomplete (coverage ++ [(key, entry)])
    = match incomplete coverage, get_pct entry with
      | Some names, Some p =>
          Some (names ++ if strict_ne_100 p then [key] else [])
      | _, _ => None
      end
  ∧ (∀ x, get_pct entry = Some (JNum x) → PrimFloat.eqb x 100%float = true →
          task_spec (coverage ++ [(key, entry)]) = task_spec coverage)
  ∧ (∀ names p, incomplete coverage = Some names → get_pct entry = Some p →
                strict_ne_100 p = true →
                task_spec (coverage ++ [(key, entry)])
                = Some (Some (Error ("Incomplete coverage for "
                                     +:+ join ", " (names ++ [key]))))).
Proof.
  intros Hkey _.
  assert (Hinc : incomplete (coverage ++ [(key, entry)])
                 = match incomplete coverage, get_pct entry with
                   | Some names, Some p =>
                       Some (names ++ if strict_ne_100 p then [key] else [])
                   | _, _ => None
                   end).
  { unfold incomplete, Object_keys. rewrite fmap_app, filter_keys_app.
    rewrite (filter_keys_ext (below (coverage ++ [(key, entry)])) (below coverage)
               (coverage.*1)).
    2:{ intros k Hk. unfold below, member. by rewrite assoc_app_l. }
    destruct (filter_keys (below coverage) coverage.*1) as [names|]; [|done].
    simpl. unfold below, member. rewrite assoc_app_r by done. simpl.
    rewrite bool_decide_eq_true_2 by done. simpl.
    destruct (get_pct entry) as [p|]; [|done]. simpl.
    by destruct (strict_ne_100 p). }
  split_and!; [done| |].
  - intros x Hp H100. unfold task_spec. rewrite Hinc, Hp. simpl. rewrite H100.
    simpl. destruct (incomplete coverage); [|done]. by rewrite app_nil_r.
  - intros names p Hn Hp Hne. unfold task_spec. rewrite Hinc, Hn, Hp, Hne.
    rewrite length_app. simpl.
    destruct (0 <? _) eqn:Hlt; [done|]. apply Nat.ltb_ge in Hlt. lia.
Qed.

Lemma spec_report_grows_by_entry_witness :
  ("branches" ∉ Object_keys [("lines", JObj [("pct", JNum 100%float)]);
                             ("functions", JObj [("pct", JNum 80%float)])])
  ∧ starts_with_digit "branches" = false
  ∧ incomplete ([("lines", JObj [("pct", JNum 100%float)]);
                 ("functions", JObj [("pct", JNum 80%float)])]
                ++ [("branches", JObj [("pct", JNum 50%float)])])
    = Some ["functions"; "branches"].
Proof.
  assert (H : "branches" ∉ Object_keys [("lines", JObj [("pct", JNum 100%float)]);
                                        ("functions", JObj [("pct", JNum 80%float)])]).
  { apply (bool_decide_unpack _). vm_compute. exact I. }
  split; [exact H|]. split; [reflexivity|].
  exact (proj1 (spec_report_grows_by_entry _ "branches"
                  (JObj [("pct", JNum 50%float)]) H eq_refl)).
Defined.

(** ** What the bodies read and where the generated files go *)

Lemma task_scripts_begin_settles :
  Settles task_scripts_begin
    (λ _, MkCompiled
            (JArr [JStr "{src,test}/**/*.ts"; JStr "lib/**/*.d.ts";
                   JStr "typings/**/*.d.ts"])
            (JObj [("declarationFiles", JBool true); ("module", JStr "commonjs");
                   ("noExternalResolve", JBool true); ("noImplicitAny", JBool true);
                   ("noLib", JBool false); ("removeComments", JBool true);
                   ("sortOutput", JBool false); ("target", JStr "ES5")])
            (JStr "_build") (JStr "_build")).
Proof.
  unfold task_scripts_begin.
  refine (Settles_bind globs_dts _ _
            (λ d _, MkCompiled d
               (JObj [("declarationFiles", JBool true); ("module", JStr "commonjs");
                      ("noExternalResolve", JBool true); ("noImplicitAny", JBool true);
                      ("noLib", JBool false); ("removeComments", JBool true);
                      ("sortOutput", JBool false); ("target", JStr "ES5")])
               (JStr "_build") (JStr "_build"))
            globs_dts_settles _). intros d.
  refine (Settles_bind env_project _ _
            (λ p _, MkCompiled d p (JStr "_build") (JStr "_build"))
            env_project_settles _). intros p.
  refine (Settles_bind globs_build _ _
            (λ b1 _, MkCompiled d p b1 (JStr "_build")) globs_build_settles _).
  intros b1.
  refine (Settles_bind globs_build _ _
            (λ b2 _, MkCompiled d p b1 b2) globs_build_settles _).
  intros b2. exact (Settles_ret _).
Qed.

Lemma task_typedoc_settles :
  Settles task_typedoc
    (λ _, MkDocumented (JStr "src/**/*.ts") "commonjs" (JStr "tsutil")
            (JStr "doc") "ES5" "minimal").
Proof.
  unfold task_typedoc.
  refine (Settles_bind globs_lib _ _
            (λ l _, MkDocumented l "commonjs" (JStr "tsutil") (JStr "doc")
                      "ES5" "minimal")
            globs_lib_settles _). intros l.
  refine (Settles_bind env_name _ _
            (λ n _, MkDocumented l "commonjs" n (JStr "doc") "ES5" "minimal")
            env_name_settles _). intros n.
  refine (Settles_bind globs_doc _ _
            (λ o _, MkDocumented l "commonjs" n o "ES5" "minimal")
            globs_doc_settles _). intros o.
  exact (Settles_ret _).
Qed.

Lemma task_spec_begin_settles :
  Settles task_spec_begin
    (λ a, (["text"; "text-summary"]
           ++ (if bool_decide (is_Some (penv_of a !! "TRAVIS")) then [] else ["html"]),
           JStr "_build/src/**/*.js")).
Proof.
  unfold task_spec_begin. eapply Settles_ext.
  - refine (Settles_bind env_isTravis _ _
              (λ t _, (["text"; "text-summary"]
                       ++ (if negb (truthy t) then ["html"] else []),
                       JStr "_build/src/**/*.js"))
              env_isTravis_settles _). intros t.
    refine (Settles_bind globs_scripts _ _
              (λ sc _, (["text"; "text-summary"]
                        ++ (if negb (truthy t) then ["html"] else []), sc))
              globs_scripts_settles _). intros sc.
    exact (Settles_ret _).
  - intros a. cbn [truthy]. by destruct (bool_decide _).
Qed.

Lemma task_spec_finish_settles :
  Settles task_spec_finish
    (λ a, (JStr "_build/test/**/*.js",
           if bool_decide (is_Some (penv_of a !! "TRAVIS")) then "spec" else "nyan")).
Proof.
  unfold task_spec_finish.
  refine (Settles_bind globs_tests _ _
            (λ te a, (te, if bool_decide (is_Some (penv_of a !! "TRAVIS"))
                          then "spec" else "nyan"))
            globs_tests_settles _). intros te.
  refine (Settles_bind env_isTravis _ _
            (λ t _, (te, if truthy t then "spec" else "nyan"))
            env_isTravis_settles _). intros t.
  exact (Settles_ret _).
Qed.

(** The globs each body reads. *)
Lemma reads_settles (a : Action) :
  Settles (reads a)
    (λ _, match a with
          | bundle | clean => []
          | copy => [JStr "_build/src/**/*.js"; JStr "_build/src/**/*.d.ts"]
          | coverage => [JStr "coverage/**/lcov.info"]
          | format | tslint => [JStr "{src,test}/**/*.ts"]
          | jshint => [JStr "gulpfile.js"]
          | pages => [JStr "doc/**/*"]
          | scripts => [JStr "{src,test}/**/*.ts"; JStr "lib/**/*.d.ts";
                        JStr "typings/**/*.d.ts"]
          | spec => [JStr "_build/src/**/*.js"; JStr "_build/test/**/*.js"]
          | typedoc => [JStr "src/**/*.ts"]
          end).
Proof.
  destruct a; cbn [reads]; try exact (Settles_ret _).
  - refine (Settles_bind task_copy _ _ (λ (p : Piped) _, src p)
              task_copy_settles _). intros p. exact (Settles_ret _).
  - refine (Settles_bind task_coverage _ _ (λ g _, [g])
              globs_coverage_settles _). intros g. exact (Settles_ret _).
  - refine (Settles_bind task_format _ _ (λ g _, [g]) globs_ts_settles _).
    intros g. exact (Settles_ret _).
  - refine (Settles_bind task_jshint _ _ (λ (h : Hinted) _, [hinted h])
              task_jshint_settles _). intros h. exact (Settles_ret _).
  - refine (Settles_bind task_pages _ _ (λ (p : Published) _, [published p])
              task_pages_settles _). intros p. exact (Settles_ret _).
  - refine (Settles_bind task_scripts_begin _ _
              (λ (c : Compiled) _, globs_of (sources c))
              task_scripts_begin_settles _). intros c. exact (Settles_ret _).
  - refine (Settles_bind task_spec_begin _ _
              (λ (b : list string * JsVal) _, [b.2; JStr "_build/test/**/*.js"])
              task_spec_begin_settles _). intros b.
    refine (Settles_bind task_spec_finish _ _
              (λ (f : JsVal * string) _, [b.2; f.1])
              task_spec_finish_settles _). intros f. exact (Settles_ret _).
  - refine (Settles_bind task_tslint _ _ (λ (l : Linted) _, [linted l])
              task_tslint_settles _). intros l. exact (Settles_ret _).
  - refine (Settles_bind task_typedoc _ _ (λ (d : Documented) _, [documented d])
              task_typedoc_settles _). intros d. exact (Settles_ret _).
Qed.

Lemma prereq_gulpfile a b deps body :
  gulpfile !! a = Some (MkTask deps body) → b ∈ deps → prereq gulpfile a b.
Proof. intros Ha Hb. by exists (MkTask deps body). Qed.

Lemma prereq_copy_scripts : prereq gulpfile "copy" "scripts".
Proof. apply (prereq_gulpfile _ _ ["scripts"] (Some copy)); [done|by left]. Qed.

Lemma prereq_spec_scripts : prereq gulpfile "spec" "scripts".
Proof. apply (prereq_gulpfile _ _ ["scripts"] (Some spec)); [done|by left]. Qed.

Lemma prereq_pages_typedoc : prereq gulpfile "pages" "typedoc".
Proof. apply (prereq_gulpfile _ _ ["typedoc"] (Some pages)); [done|by left]. Qed.

Lemma prereq_scripts_clean : prereq gulpfile "scripts" "clean".
Proof.
  apply (prereq_gulpfile _ _ ["clean"; "tslint"] (Some scripts)); [done|by left].
Qed.

Lemma prereq_typedoc_clean : prereq gulpfile "typedoc" "clean".
Proof. apply (prereq_gulpfile _ _ ["clean"] (Some typedoc)); [done|by left]. Qed.

(** X11: no body reads generated files before they are written.  In
    every store of a run, a body that hands [gulp.src] a glob in or below
    the directory [scripts] writes to is the body of a task that names
    [scripts] as a prerequisite, and one that reads in or below the
    directory [typedoc] writes to names [typedoc]. *)
Theorem generated_files_read_after_written (s : Store) (a : Action) (g : JsVal) :
  memo_ok s →
  g ∈ (reads a s).1 →
  (below_dir (js_dest (task_scripts_begin s).1) g = true
   ∨ below_dir (dts_dest (task_scripts_begin s).1) g = true →
   prereq gulpfile (name_of a) "scripts")
  ∧ (below_dir (out (task_typedoc s).1) g = true →
     prereq gulpfile (name_of a) "typedoc").
Proof.
  intros Hs Hg.
  destruct (reads_settles a s Hs) as (Hr & _).
  destruct (task_scripts_begin_settles s Hs) as (Hb & _).
  destruct (task_typedoc_settles s Hs) as (Hd & _).
  rewrite Hr in Hg. rewrite Hb, Hd. cbn [js_dest dts_dest out].
  destruct a; cbn [name_of] in Hg |- *;
    repeat (apply elem_of_cons in Hg as [->|Hg]);
    try (by apply elem_of_nil in Hg);
    (split; [intros [H|H]|intros H]);
    first [ discriminate H
          | exact prereq_copy_scripts
          | exact prereq_spec_scripts
          | exact prereq_pages_typedoc ].
Qed.

Lemma generated_files_read_after_written_witness :
  memo_ok (loaded ["copy"] ∅ "/home/tsutil")
  ∧ JStr "_build/src/**/*.d.ts" ∈ (reads copy (loaded ["copy"] ∅ "/home/tsutil")).1
  ∧ prereq gulpfile (name_of copy) "scripts".
Proof.
  assert (H : JStr "_build/src/**/*.d.ts"
              ∈ (reads copy (loaded ["copy"] ∅ "/home/tsutil")).1)
    by (right; left).
  split; [apply memo_ok_loaded|]. split; [exact H|].
  exact (proj1 (generated_files_read_after_written _ copy _
                  (memo_ok_loaded _ _ _) H) (or_introl eq_refl)).
Defined.

(** X12: [clean] removes exactly the directories generated files are
    written to, before they are written.  In every store of a run, what
    [clean] hands to [del] is the directory [scripts] writes the scripts
    and the declarations to, followed by the directory [typedoc] writes
    to; and [clean] is a prerequisite of both tasks. *)
Theorem clean_covers_generated (s : Store) :
  memo_ok s →
  (task_clean_patterns s).1
    = [js_dest (task_scripts_begin s).1; out (task_typedoc s).1]
  ∧ dts_dest (task_scripts_begin s).1 = js_dest (task_scripts_begin s).1
  ∧ prereq gulpfile "scripts" "clean"
  ∧ prereq gulpfile "typedoc" "clean".
Proof.
  intros Hs.
  destruct (task_clean_patterns_settles s Hs) as (Hc & _).
  destruct (task_scripts_begin_settles s Hs) as (Hb & _).
  destruct (task_typedoc_settles s Hs) as (Hd & _).
  rewrite Hc, Hb, Hd.
  split_and!; [done|done|exact prereq_scripts_clean|exact prereq_typedoc_clean].
Qed.

Lemma clean_covers_generated_witness :
  memo_ok (loaded ["clean"] ∅ "/home/tsutil")
  ∧ (task_clean_patterns (loaded ["clean"] ∅ "/home/tsutil")).1
    = [js_dest (task_scripts_begin (loaded ["clean"] ∅ "/home/tsutil")).1;
       out (task_typedoc (loaded ["clean"] ∅ "/home/tsutil")).1].
Proof.
  split; [apply memo_ok_loaded|].
  exact (proj1 (clean_covers_generated _ (memo_ok_loaded _ _ _))).
Defined.

(** ** [format] *)

(** X13: [format] calls back exactly once, as the last thing it does.
    When the search for the files reports a truthy error the formatter is
    not run and the callback gets that error; otherwise the formatter is
    run once, on the files found and before the callback, which gets
    [null].  The files searched for are those [tslint] lints. *)
Theorem format_calls_back_once (s : Store) (err : JsVal) (files : list string) :
  memo_ok s →
  (task_format s).1 = linted (task_tslint s).1
  ∧ ∃ arg,
      filter (λ step, is_callback step = true) (task_format_found err files)
        = [Callback arg]
      ∧ last (task_format_found err files) = Some (Callback arg)
      ∧ (truthy err = true →
         arg = err ∧ task_format_found err files = [Callback err])
      ∧ (truthy err = false →
         arg = JNull
         ∧ task_format_found err files
           = [ProcessFiles files false true false true; Callback JNull]).
Proof.
  intros Hs. split.
  - destruct (globs_ts_settles s Hs) as (Hg & _).
    destruct (task_tslint_settles s Hs) as (Ht & _).
    unfold task_format. by rewrite Hg, Ht.
  - unfold task_format_found. destruct (truthy err) eqn:Herr.
    + exists err. by split_and!.
    + exists JNull. by split_and!.
Qed.

Lemma format_calls_back_once_witness :
  memo_ok (loaded ["format"] ∅ "/home/tsutil")
  ∧ (task_format (loaded ["format"] ∅ "/home/tsutil")).1
    = linted (task_tslint (loaded ["format"] ∅ "/home/tsutil")).1.
Proof.
  split; [apply memo_ok_loaded|].
  exact (proj1 (format_calls_back_once _ (JStr "EACCES") ["src/a.ts"]
                  (memo_ok_loaded _ _ _))).
Defined.

(** ** The declarations *)

(** X14: no declaration of the file replaces another.  The table of
    tasks holds a task under a name, with its prerequisites and its body,
    exactly when the file declares it so, and it has as many tasks as the
    file has declarations. *)
Theorem declarations_all_kept :
  (∀ name deps body,
     gulpfile !! name = Some (MkTask deps body)
     ↔ (name, deps, body) ∈ declarations)
  ∧ size gulpfile = length declarations.
Proof.
  split; [|by vm_compute].
  assert (H1 : map_Forall (λ name t, (name, dep t, fn t) ∈ declarations) gulpfile).
  { apply (bool_decide_unpack _). vm_compute. exact I. }
  assert (H2 : Forall (λ d, gulpfile !! d.1.1 = Some (MkTask d.1.2 d.2))
                 declarations).
  { apply (bool_decide_unpack _). vm_compute. exact I. }
  intros name deps body. split.
  - intros Ht. exact (H1 name _ Ht).
  - intros Hd. rewrite Forall_forall in H2. exact (H2 _ Hd).
Qed.

(** ** [env.pagesUrl] and a later change of the environment *)

(** X15: [env.pagesUrl()] is read from the environment again as long as
    [PAGES_URL] is not set, and never again once it was.  When it is not
    set at the first call, the call returns [undefined] and a call after
    it has been set returns the new value; when it is set at the first
    call, every later call returns that first value, whatever
    [process.env] has become. *)
Theorem env_pagesUrl_reread_until_set (s : Store) (penv : gmap string string) :
  slot_get (var "env.pagesUrl") s = JUndefined →
  (process_env s !! "PAGES_URL" = None →
   (env_pagesUrl s).1 = JUndefined
   ∧ (env_pagesUrl (set_env penv (env_pagesUrl s).2)).1
     = from_option JStr JUndefined (penv !! "PAGES_URL"))
  ∧ (∀ url, process_env s !! "PAGES_URL" = Some url →
     (env_pagesUrl s).1 = JStr url
     ∧ (env_pagesUrl (set_env penv (env_pagesUrl s).2)).1 = JStr url).
Proof.
  intros Hslot.
  assert (Hfirst : env_pagesUrl s
                   = (from_option JStr JUndefined (process_env s !! "PAGES_URL"),
                      slot_set (var "env.pagesUrl")
                        (from_option JStr JUndefined (process_env s !! "PAGES_URL"))
                        s)).
  { unfold env_pagesUrl, val. rewrite Hslot. cbv zeta.
    cbn [is_undefined process_env_get Js.gets]. simpl.
    by rewrite lookup_insert_eq. }
  rewrite Hfirst. cbn [fst snd]. split.
  - intros Hnone. rewrite Hnone. split; [done|].
    unfold env_pagesUrl, val. simpl. rewrite lookup_insert_eq. simpl.
    by rewrite lookup_insert_eq.
  - intros url Hurl. rewrite Hurl. split; [done|].
    unfold env_pagesUrl. rewrite val_hit; simpl; by rewrite lookup_insert_eq.
Qed.

Lemma env_pagesUrl_reread_until_set_witness :
  slot_get (var "env.pagesUrl") (loaded ["doc"] ∅ "/home/tsutil") = JUndefined
  ∧ (env_pagesUrl
       (set_env {[ "PAGES_URL" := "git@host:doc" ]}
          (env_pagesUrl (loaded ["doc"] ∅ "/home/tsutil")).2)).1
    = JStr "git@host:doc".
Proof.
  split; [reflexivity|].
  exact (proj2 (proj1 (env_pagesUrl_reread_until_set
                         (loaded ["doc"] ∅ "/home/tsutil")
                         {[ "PAGES_URL" := "git@host:doc" ]} eq_refl)
                  eq_refl)).
Defined.
